(** * A lending library with pluggable late-fee policies (demo-updated.py)

    Shallow embedding of the domain model, the fee policies, the two ports
    and the [Library] orchestrator, followed by the properties the
    specification states about them.

    Conventions of the embedding.
    - A Python [float] is an IEEE-754 binary64 value: Rocq's primitive
      [float], whose operations are specified bit for bit by [SpecFloat].
    - A Python [int] is a [Z].  Multiplying an [int] by a [float] first
      converts the integer, which raises [OverflowError] when it is too
      large; a raised exception is the [Raise] branch of [result].
    - Objects compared by identity carry an explicit object identity [oid].
    - Methods that mutate their receiver or an argument return the new
      values; printed lines are returned as a list of [Output]s, with the
      exception that ended the printing, if any.
    - [rich], whose [print] the module calls, is not code of this
      repository: what its markup parser makes of a text with a tag is a
      parameter, [Rich]. *)

From Stdlib Require Import ZArith Floats Lia Ascii.
From Stdlib Require Uint63.
From stdpp Require Import gmap strings list.

Open Scope float_scope.

(** ** Python numerics *)

(** The exceptions the module can end a call with: [OverflowError] from
    converting an [int], [rich.errors.MarkupError] from printing. *)
Inductive exn := OverflowError | MarkupError.

Inductive result (A : Type) :=
  | Ok (a : A)
  | Raise (e : exn).
Arguments Ok {A} a.
Arguments Raise {A} e.

(** [float(n)] for an [int]: the nearest double, ties to even;
    "int too large to convert to float" when that rounds past the largest
    finite double. *)
Definition float_of_int (n : Z) : result float :=
  match binary_normalize prec emax n 0 false with
  | S754_infinity _ => Raise OverflowError
  | sf => Ok (SF2Prim sf)
  end.

(** [n * x] with [n] an [int] and [x] a [float]. *)
Definition int_mul_float (n : Z) (x : float) : result float :=
  match float_of_int n with
  | Ok f => Ok (f * x)
  | Raise e => Raise e
  end.

(** The integer nearest to [m * 2^e], ties to even, for [0 <= m]. *)
Definition round_half_even (m e : Z) : Z :=
  if (0 <=? e)%Z then (m * 2 ^ e)%Z
  else
    let d := (2 ^ (- e))%Z in
    let q := (m / d)%Z in
    match (2 * (m mod d) ?= d)%Z with
    | Lt => q
    | Gt => (q + 1)%Z
    | Eq => if Z.even q then q else (q + 1)%Z
    end.

(** The double nearest to [n / 100], carrying the sign [s]. *)
Definition hundredths (s : bool) (n : Z) : spec_float :=
  match n with
  | Zpos p => SFdiv prec emax (S754_finite s p 0) (S754_finite false 100 0)
  | _ => S754_zero s
  end.

(** [round(x, 2)]: the exact value of [x] is rounded to two decimals, ties
    to even, and the decimal is read back as the nearest double; infinities
    and NaN round to themselves. *)
Definition round2 (x : float) : float :=
  match Prim2SF x with
  | S754_finite s m e => SF2Prim (hundredths s (round_half_even (Zpos m * 100) e))
  | _ => x
  end.

(** ** Domain model *)

(** The concrete subclasses of [LoanItem]. *)
Inductive ItemClass := Book | DVD.

(** A [LoanItem] object.  [LoanItem] defines no [__eq__], so [==] on items
    is object identity: [oid] is the identity of the object, given by
    whoever constructs it, and two constructions never share one. *)
Record LoanItem := {
  oid : nat;
  class_of : ItemClass;
  title : string;
  max_days : Z
}.

Definition late_fee_per_day (item : LoanItem) : float :=
  match class_of item with
  | Book => 0.25
  | DVD => 0.75
  end.

(** [a == b] on loan items. *)
Definition item_eq (a b : LoanItem) : bool := Nat.eqb (oid a) (oid b).

Record MemberAccount := {
  name : string;
  __balance : float
}.

(** [MemberAccount(name)] *)
Definition new_MemberAccount (n : string) : MemberAccount :=
  {| name := n; __balance := 0 |}.

Definition add_charge (self : MemberAccount) (amount : float) : MemberAccount :=
  if 0 <? amount
  then {| name := name self; __balance := __balance self + amount |}
  else self.

(** Returns the account after the call and the boolean the method returns. *)
Definition pay (self : MemberAccount) (amount : float) : MemberAccount * bool :=
  if (0 <? amount) && (amount <=? __balance self)
  then ({| name := name self; __balance := __balance self - amount |}, true)
  else (self, false).

Definition balance (self : MemberAccount) : float :=
  round2 (__balance self).

(** ** Policies and ports *)

Record LateFeePolicy := {
  compute_fee : LoanItem -> Z -> result float
}.

Definition StandardPolicy : LateFeePolicy := {|
  compute_fee item days_late :=
    if (days_late <=? 0)%Z then Ok 0
    else int_mul_float days_late (late_fee_per_day item)
|}.

Definition ChildrenPolicy : LateFeePolicy := {|
  compute_fee item days_late :=
    let days := Z.max 0 (days_late - 2) in
    int_mul_float days (late_fee_per_day item)
|}.

(** What the f-strings of [Library] interpolate, before formatting. *)
Inductive Message :=
  | CheckedOut (item_title : string) (days : Z)
  | LateFee (item_title : string) (fee bal : float)
  | ReturnedOnTime (item_title : string)
  | BalanceNow (bal : float).

(** A printed line. *)
Inductive Output :=
  | Email (to : string) (msg : Message)
  | Payment (who : string) (amount : float) (ok : bool).

(** The [str] values a line interpolates.  The numbers it formats
    ([:.2f], an [int]) hold no bracket. *)
Definition message_texts (msg : Message) : list string :=
  match msg with
  | CheckedOut t _ | LateFee t _ _ | ReturnedOnTime t => [t]
  | BalanceNow _ => []
  end.

Definition texts (line : Output) : list string :=
  match line with
  | Email to msg => to :: message_texts msg
  | Payment who _ _ => [who]
  end.

(** ["[" in s] *)
Definition has_bracket (s : string) : bool :=
  existsb (Ascii.eqb "["%char) (String.list_ascii_of_string s).

(** The markup parser of [rich]: whether it renders a line whose
    interpolated texts hold a bracket.  It refuses, for one, a closing tag
    such as ["[/b]"] that matches no open tag. *)
Record Rich := {
  renders_markup : Output -> bool
}.

(** [rprint(line)].  rich reads the line as console markup.  The tags the
    f-strings write themselves ([[bold cyan]...[/bold cyan]]) are balanced
    and ["[Email]"], ["[Payment]"] are no tags, so a line whose interpolated
    texts hold no ["["] has no other tag and is printed (the stream is
    taken to encode every character, as a UTF-8 console does).  On any
    other line the parser decides; when it refuses, [MarkupError] is raised
    and nothing is printed. *)
Definition rprint (rich : Rich) (line : Output) : list Output * option exn :=
  if existsb has_bracket (texts line) && negb (renders_markup rich line)
  then ([], Some MarkupError)
  else ([line], None).

(** The lines a call printed and the exception that ended it, if any. *)
Record Notifier := {
  notify : MemberAccount -> Message -> list Output * option exn
}.

(** The member after the call, the lines printed, and the boolean returned
    or the exception raised. *)
Record PaymentGateway := {
  charge : MemberAccount -> float -> MemberAccount * list Output * result bool
}.

Definition EmailNotifier (rich : Rich) : Notifier := {|
  notify member message := rprint rich (Email (name member) message)
|}.

Definition ConsolePayment (rich : Rich) : PaymentGateway := {|
  charge member amount :=
    let '(member', ok) := pay member amount in
    match rprint rich (Payment (name member) amount ok) with
    | (out, None) => (member', out, Ok ok)
    | (out, Some e) => (member', out, Raise e)
    end
|}.

(** ** Application core *)

Record Library := {
  notifier : Notifier;
  payments : PaymentGateway;
  policy : LateFeePolicy;
  _loans : gmap string (list LoanItem)
}.

Definition new_Library (n : Notifier) (p : PaymentGateway) (f : LateFeePolicy) : Library :=
  {| notifier := n; payments := p; policy := f; _loans := ∅ |}.

Definition with_loans (self : Library) (loans : gmap string (list LoanItem)) : Library :=
  {| notifier := notifier self; payments := payments self;
     policy := policy self; _loans := loans |}.

(** [library.policy = p] *)
Definition with_policy (self : Library) (p : LateFeePolicy) : Library :=
  {| notifier := notifier self; payments := payments self;
     policy := p; _loans := _loans self |}.

(** [item in items] *)
Definition item_in (item : LoanItem) (items : list LoanItem) : bool :=
  existsb (fun x => item_eq x item) items.

(** [items.remove(item)], called only when [item in items]. *)
Fixpoint list_remove (item : LoanItem) (items : list LoanItem) : list LoanItem :=
  match items with
  | [] => []
  | x :: rest => if item_eq x item then rest else x :: list_remove item rest
  end.

(** [self._loans.get(member.name, [])] *)
Definition loans_of (self : Library) (member : MemberAccount) : list LoanItem :=
  default [] (_loans self !! name member).

(** The library after the call (the item is appended before the notifier
    is called), with the lines printed and the exception of the notifier,
    if any. *)
Definition checkout (self : Library) (member : MemberAccount) (item : LoanItem)
  : Library * (list Output * option exn) :=
  (with_loans self (<[name member := loans_of self member ++ [item]]> (_loans self)),
   notify (notifier self) member (CheckedOut (title item) (max_days item))).

(** What a call of [return_item] leaves behind: the library and the member
    after the call, the lines printed, and the exception that ended the
    call, if any. *)
Record Returned := {
  lib_after : Library;
  member_after : MemberAccount;
  printed : list Output;
  raised : option exn
}.

Definition return_item (self : Library) (member : MemberAccount)
    (item : LoanItem) (days_late : Z) : Returned :=
  let items := loans_of self member in
  let self' :=
    if item_in item items
    then with_loans self (<[name member := list_remove item items]> (_loans self))
    else self in
  match compute_fee (policy self) item days_late with
  | Raise e =>
      {| lib_after := self'; member_after := member; printed := []; raised := Some e |}
  | Ok fee =>
      if 0 <? fee then
        let member' := add_charge member fee in
        let '(out, e) := notify (notifier self) member'
                           (LateFee (title item) fee (balance member')) in
        {| lib_after := self'; member_after := member';
           printed := out; raised := e |}
      else
        let '(out, e) := notify (notifier self) member (ReturnedOnTime (title item)) in
        {| lib_after := self'; member_after := member;
           printed := out; raised := e |}
  end.

(** The member after the call, with the lines printed and the exception
    that ended the call, if any: an exception of the gateway leaves the
    balance notification unsent. *)
Definition pay_balance (self : Library) (member : MemberAccount) (amount : float)
  : MemberAccount * (list Output * option exn) :=
  let '(member', out, r) := charge (payments self) member amount in
  match r with
  | Raise e => (member', (out, Some e))
  | Ok _ =>
      let '(out', e) := notify (notifier self) member' (BalanceNow (balance member')) in
      (member', (out ++ out', e))
  end.

Definition list_loans (self : Library) (member : MemberAccount) : list string :=
  map title (loans_of self member).

(** ** Call sequences *)

(** A call on a [MemberAccount] from outside the class. *)
Inductive AccountCall :=
  | AddCharge (amount : float)
  | Pay (amount : float).

Definition account_step (m : MemberAccount) (c : AccountCall) : MemberAccount :=
  match c with
  | AddCharge a => add_charge m a
  | Pay a => fst (pay m a)
  end.

Definition account_run (m : MemberAccount) (cs : list AccountCall) : MemberAccount :=
  fold_left account_step cs m.

(** [pay(float('inf'))] *)
Definition pays_infinity (c : AccountCall) : bool :=
  match c with
  | Pay a => a =? infinity
  | AddCharge _ => false
  end.

(** [pay(float('inf'))] on an account whose stored balance is [+inf]: the
    call whose subtraction, [inf - inf], leaves NaN. *)
Definition pays_infinity_off_infinity (m : MemberAccount) (c : AccountCall) : bool :=
  match c with
  | Pay a => (a =? infinity) && (__balance m =? infinity)
  | AddCharge _ => false
  end.

(** Whether the calls, made in turn on [m], hold such a call. *)
Fixpoint breaks_balance (m : MemberAccount) (cs : list AccountCall) : bool :=
  match cs with
  | [] => false
  | c :: cs' => pays_infinity_off_infinity m c || breaks_balance (account_step m c) cs'
  end.

(** A call on a [Library]; the members passed in are whatever objects the
    caller holds at that moment. *)
Inductive LibraryCall :=
  | Checkout (member : MemberAccount) (item : LoanItem)
  | ReturnItem (member : MemberAccount) (item : LoanItem) (days_late : Z)
  | PayBalance (member : MemberAccount) (amount : float)
  | ListLoans (member : MemberAccount)
  | SetPolicy (p : LateFeePolicy).

Definition library_step (lib : Library) (c : LibraryCall) : Library :=
  match c with
  | Checkout m i => fst (checkout lib m i)
  | ReturnItem m i d => lib_after (return_item lib m i d)
  | SetPolicy p => with_policy lib p
  | PayBalance _ _ | ListLoans _ => lib
  end.

Definition library_run (lib : Library) (cs : list LibraryCall) : Library :=
  fold_left library_step cs lib.

(** The call checks an item out for a member called [n]. *)
Definition checks_out_for (n : string) (c : LibraryCall) : Prop :=
  match c with
  | Checkout m _ => name m = n
  | _ => False
  end.

(** ** Signs of binary64 values *)

(** [0 <= x]: a zero of either sign, a positive finite value or [+inf]. *)
Definition sf_nonneg (x : spec_float) : bool :=
  match x with
  | S754_zero _ => true
  | S754_infinity s | S754_finite s _ _ => negb s
  | S754_nan => false
  end.

(** [0 < x]: a positive finite value or [+inf]. *)
Definition sf_pos (x : spec_float) : bool :=
  match x with
  | S754_infinity s | S754_finite s _ _ => negb s
  | S754_zero _ | S754_nan => false
  end.

(** The largest [int] that [float] converts: every integer below
    [2^1024 - 2^970] rounds to a finite double. *)
Definition float_of_int_bound : Z := (2 ^ 1024 - 2 ^ 970)%Z.

(** [float(n)] when it does not overflow: the double nearest to [n]. *)
Definition nearest_double (n : Z) : float :=
  SF2Prim (binary_normalize prec emax n 0 false).

(** ** The demo scenario *)

Module Demo.

(** The demo interpolates no text with a bracket, so what rich makes of
    tags never matters to it.  For concrete runs, a console that refuses
    every text with a bracket. *)
Definition console : Rich := {| renders_markup := fun _ => false |}.

Definition library (rich : Rich) : Library :=
  new_Library (EmailNotifier rich) (ConsolePayment rich) StandardPolicy.
Definition alice : MemberAccount := new_MemberAccount "Alice".
Definition moby : LoanItem :=
  {| oid := 1; class_of := Book; title := "Moby Dick"; max_days := 14 |}.
Definition matrix : LoanItem :=
  {| oid := 2; class_of := DVD; title := "The Matrix"; max_days := 7 |}.

(** The library after the two checkouts. *)
Definition library2 (rich : Rich) : Library :=
  fst (checkout (fst (checkout (library rich) alice moby)) alice matrix).

(** [library.return_item(alice, moby, days_late=3)] *)
Definition returned_moby (rich : Rich) : Returned :=
  return_item (library2 rich) alice moby 3.

(** [library.return_item(alice, matrix, days_late=3)], on the same
    [alice] object, which the first return has charged. *)
Definition returned_matrix (rich : Rich) : Returned :=
  return_item (lib_after (returned_moby rich)) (member_after (returned_moby rich))
    matrix 3.

End Demo.

(** ** One member's session *)

(** A call a caller makes on a library with the one account object it
    holds; a caller that catches the exception of a call goes on with the
    objects as the call left them. *)
Inductive MemberCall :=
  | DoCheckout (item : LoanItem)
  | DoReturn (item : LoanItem) (days_late : Z)
  | DoPay (amount : float)
  | DoSetPolicy (p : LateFeePolicy).

Definition member_call (s : Library * MemberAccount) (c : MemberCall)
  : Library * MemberAccount :=
  let '(lib, m) := s in
  match c with
  | DoCheckout i => (fst (checkout lib m i), m)
  | DoReturn i d =>
      let r := return_item lib m i d in (lib_after r, member_after r)
  | DoPay a => (lib, fst (pay_balance lib m a))
  | DoSetPolicy p => (with_policy lib p, m)
  end.

Definition session (lib : Library) (m : MemberAccount) (calls : list MemberCall)
  : Library * MemberAccount :=
  fold_left member_call calls (lib, m).

(** [library.pay_balance(member, float('inf'))] *)
Definition pays_balance_infinity (c : MemberCall) : bool :=
  match c with
  | DoPay a => a =? infinity
  | _ => false
  end.

(** ** The bank account of 4-pillars.py *)

(** The module calls its account with [int] amounts only
    ([BankAccount("Alice", 100)], [deposit(50)]); amounts are [Z] here. *)
Module Pillars.

Record BankAccount := {
  owner : string;
  __balance : Z
}.

(** [BankAccount(owner, balance)]; the constructor takes any balance. *)
Definition new_BankAccount (o : string) (b : Z) : BankAccount :=
  {| owner := o; __balance := b |}.

Definition deposit (self : BankAccount) (amount : Z) : BankAccount :=
  if (0 <? amount)%Z
  then {| owner := owner self; __balance := (__balance self + amount)%Z |}
  else self.

Definition withdraw (self : BankAccount) (amount : Z) : BankAccount :=
  if ((0 <? amount) && (amount <=? __balance self))%Z
  then {| owner := owner self; __balance := (__balance self - amount)%Z |}
  else self.

Definition get_balance (self : BankAccount) : Z := __balance self.

Inductive Call :=
  | Deposit (amount : Z)
  | Withdraw (amount : Z).

Definition step (acc : BankAccount) (c : Call) : BankAccount :=
  match c with
  | Deposit a => deposit acc a
  | Withdraw a => withdraw acc a
  end.

Definition run (acc : BankAccount) (cs : list Call) : BankAccount :=
  fold_left step cs acc.

End Pillars.

Section SpecFloat_signs.

Local Open Scope Z_scope.

Lemma shr_1_nonneg mrs : 0 <= shr_m mrs -> 0 <= shr_m (shr_1 mrs).
Proof.
  destruct mrs as [m r s]; simpl.
  destruct m as [|p|p]; [easy| |easy].
  destruct p; simpl; lia.
Qed.

Lemma iter_pos_invariant {A} (P : A -> Prop) (f : A -> A) :
  (forall x, P x -> P (f x)) -> forall n x, P x -> P (SpecFloat.iter_pos f n x).
Proof.
  intros Hf n. induction n as [n IH|n IH|]; intros x Hx; simpl; auto.
Qed.

Lemma shr_nonneg mrs e n : 0 <= shr_m mrs -> 0 <= shr_m (fst (shr mrs e n)).
Proof.
  intros H. unfold shr. destruct n; simpl; auto.
  apply (iter_pos_invariant (fun x => 0 <= shr_m x)); auto using shr_1_nonneg.
Qed.

Lemma shr_record_of_loc_m m l : shr_m (shr_record_of_loc m l) = m.
Proof. destruct l as [|[]]; reflexivity. Qed.

Lemma shr_fexp_nonneg m e l : 0 <= m -> 0 <= shr_m (fst (shr_fexp prec emax m e l)).
Proof.
  intros H. unfold shr_fexp. apply shr_nonneg. now rewrite shr_record_of_loc_m.
Qed.

Lemma round_nearest_even_nonneg m l : 0 <= m -> 0 <= round_nearest_even m l.
Proof.
  intros H. destruct l as [|[]]; simpl; try lia.
  destruct (Z.even m); lia.
Qed.

Lemma binary_round_aux_nonneg m e l :
  0 <= m -> sf_nonneg (binary_round_aux prec emax false m e l) = true.
Proof.
  intros H. unfold binary_round_aux.
  pose proof (shr_fexp_nonneg m e l H) as H1.
  destruct (shr_fexp prec emax m e l) as [mrs' e'].
  pose proof (shr_fexp_nonneg _ e' loc_Exact
                (round_nearest_even_nonneg _ (loc_of_shr_record mrs') H1)) as H2.
  destruct (shr_fexp prec emax _ e' loc_Exact) as [mrs'' e'']. simpl in H2.
  destruct (shr_m mrs'') as [|p|p]; [reflexivity| |lia].
  now destruct (e'' <=? emax - prec).
Qed.

Lemma binary_round_nonneg m e : sf_nonneg (binary_round prec emax false m e) = true.
Proof.
  unfold binary_round. destruct (shl_align _ _ _) as [mz ez].
  now apply binary_round_aux_nonneg.
Qed.

Lemma binary_normalize_nonneg m e :
  0 <= m -> sf_nonneg (binary_normalize prec emax m e false) = true.
Proof.
  intros H. destruct m; [reflexivity| |lia]. apply binary_round_nonneg.
Qed.

Lemma SFldexp_nonneg x e : sf_nonneg x = true -> sf_nonneg (SFldexp prec emax x e) = true.
Proof.
  destruct x as [s|s| |s m ex]; simpl; auto.
  destruct s; [discriminate|]. intros _. apply binary_round_nonneg.
Qed.

Lemma SFadd_nonneg x y :
  sf_nonneg x = true -> sf_nonneg y = true -> sf_nonneg (SFadd prec emax x y) = true.
Proof.
  destruct x as [sx|sx| |sx mx ex], y as [sy|sy| |sy my ey]; simpl; try easy.
  - now destruct sx, sy.
  - now destruct sx, sy.
  - destruct sx, sy; try discriminate. intros _ _.
    apply binary_normalize_nonneg. simpl. lia.
Qed.

Lemma SFdiv_finite_nonneg mx ex my ey :
  sf_nonneg (SFdiv prec emax (S754_finite false mx ex) (S754_finite false my ey)) = true.
Proof.
  unfold SFdiv, SFdiv_core_binary.
  set (m' := match _ with Z0 => Zpos mx | Zpos _ => Z.shiftl (Zpos mx) _ | Zneg _ => 0 end).
  assert (0 <= m') as Hm.
  { subst m'. destruct (_ - _ - _); try lia. apply Z.shiftl_nonneg. lia. }
  pose proof (Z.div_pos m' (Zpos my) Hm ltac:(lia)) as Hq.
  unfold Z.div in Hq. destruct (Z.div_eucl m' (Zpos my)) as [q r]. simpl in Hq.
  now apply binary_round_aux_nonneg.
Qed.

Lemma digits2_pos_bounds p :
  2 ^ (Zpos (digits2_pos p) - 1) <= Zpos p < 2 ^ Zpos (digits2_pos p).
Proof.
  induction p as [p IH|p IH|]; simpl digits2_pos;
    rewrite ?Pos2Z.inj_succ; [| |simpl; lia].
  - replace (Z.succ (Zpos (digits2_pos p)) - 1) with (Z.succ (Zpos (digits2_pos p) - 1)) by lia.
    rewrite !Z.pow_succ_r by lia. lia.
  - replace (Z.succ (Zpos (digits2_pos p)) - 1) with (Z.succ (Zpos (digits2_pos p) - 1)) by lia.
    rewrite !Z.pow_succ_r by lia. lia.
Qed.

Lemma iter_xO_shift m d : Zpos (Pos.iter xO m d) = Zpos m * 2 ^ Zpos d.
Proof.
  induction d as [|d IH] using Pos.peano_ind.
  - simpl. lia.
  - rewrite Pos.iter_succ, Pos2Z.inj_succ, Z.pow_succ_r by lia.
    rewrite Pos2Z.inj_xO, IH. lia.
Qed.

Lemma shl_align_fst mx ex ex' :
  ex' <= ex -> Zpos (fst (shl_align mx ex ex')) = Zpos mx * 2 ^ (ex - ex').
Proof.
  intros H. unfold shl_align. destruct (ex' - ex) as [|d|d] eqn:E; simpl.
  - replace (ex - ex') with 0 by lia. lia.
  - lia.
  - rewrite iter_xO_shift. f_equal. f_equal. lia.
Qed.

(** A canonical mantissa has at most 53 bits, and exactly 53 above the
    smallest exponent. *)
Lemma bounded_digits m e :
  bounded prec emax m e = true ->
  Zpos m < 2 ^ 53 /\ -1074 <= e /\ (-1074 < e -> 2 ^ 52 <= Zpos m).
Proof.
  unfold bounded, canonical_mantissa, fexp, SpecFloat.emin, prec, emax.
  intros H. apply andb_prop in H as [H _]. apply Z.eqb_eq in H.
  pose proof (digits2_pos_bounds m) as [Hlo Hhi].
  set (d := Zpos (digits2_pos m)) in *.
  assert (0 < d) by (subst d; lia).
  repeat split.
  - apply Z.lt_le_trans with (1 := Hhi). apply Z.pow_le_mono_r; lia.
  - lia.
  - intros He. assert (d = 53) as -> by lia. exact Hlo.
Qed.

(** On canonical positive values the structural comparison of [SpecFloat]
    agrees with the order of the aligned mantissas. *)
Lemma SFleb_finite_aligned ma ea mb eb :
  bounded prec emax ma ea = true -> bounded prec emax mb eb = true ->
  SFleb (S754_finite false ma ea) (S754_finite false mb eb) = true ->
  Zpos ma * 2 ^ (ea - Z.min eb ea) <= Zpos mb * 2 ^ (eb - Z.min eb ea).
Proof.
  intros Ha Hb. unfold SFleb, SFcompare.
  apply bounded_digits in Ha as (Ha1 & Ha2 & Ha3).
  apply bounded_digits in Hb as (Hb1 & Hb2 & Hb3).
  destruct (Z.compare_spec ea eb) as [->|Hlt|Hgt]; [|intros _|discriminate].
  - rewrite Z.min_id, Z.sub_diag. change (Pos.compare_cont Eq ma mb) with (ma ?= mb)%positive.
    destruct (Pos.compare_spec ma mb); try discriminate; intros _; simpl; lia.
  - rewrite Z.min_r, Z.sub_diag by lia. specialize (Hb3 ltac:(lia)).
    assert (2 ^ 1 <= 2 ^ (eb - ea)) by (apply Z.pow_le_mono_r; lia).
    change (2 ^ 1) with 2 in *. change (2 ^ 0) with 1. nia.
Qed.

Lemma SFsub_nonneg x y :
  valid_binary x = true -> valid_binary y = true ->
  sf_pos y = true -> y <> S754_infinity false -> SFleb y x = true ->
  sf_nonneg (SFsub prec emax x y) = true.
Proof.
  destruct y as [sy|sy| |sy my ey]; try discriminate.
  - destruct sy; [discriminate|]. now intros _ _ _ H.
  - destruct sy; [discriminate|]. intros Hx Hy _ _.
    destruct x as [sx|sx| |sx mx ex]; try discriminate.
    + now destruct sx.
    + destruct sx; [discriminate|]. intros Hle. simpl.
      apply binary_normalize_nonneg. simpl cond_Zopp.
      pose proof (SFleb_finite_aligned _ _ _ _ Hy Hx Hle).
      rewrite !shl_align_fst by lia. lia.
Qed.

End SpecFloat_signs.

(** ** Converting an [int] to a [float] *)

Section Int_to_float.

Local Open Scope Z_scope.

Lemma shr_1_spec r :
  0 <= shr_m r ->
  shr_m (shr_1 r) = Z.shiftr (shr_m r) 1 /\ shr_r (shr_1 r) = Z.testbit (shr_m r) 0.
Proof.
  destruct r as [m r s]. simpl shr_m at 1 2 4. intros H.
  destruct m as [|p|p]; [easy| |lia].
  destruct p; simpl; auto.
Qed.

Lemma iter_shr_1_spec n : forall r,
  0 <= shr_m r ->
  shr_m (SpecFloat.iter_pos shr_1 n r) = Z.shiftr (shr_m r) (Zpos n) /\
  shr_r (SpecFloat.iter_pos shr_1 n r) = Z.testbit (shr_m r) (Zpos n - 1).
Proof.
  assert (Hstep : forall r k, 0 <= shr_m r -> 0 <= k ->
            forall r', shr_m r' = Z.shiftr (shr_m r) k -> 0 <= shr_m r').
  { intros r k Hr Hk r' ->. now apply Z.shiftr_nonneg. }
  induction n as [n IH|n IH|]; intros r Hr; simpl SpecFloat.iter_pos.
  - destruct (shr_1_spec r Hr) as [E1 _].
    assert (H1 : 0 <= shr_m (shr_1 r)) by (eapply (Hstep r 1); auto; lia).
    destruct (IH _ H1) as [E2 _].
    assert (H2 : 0 <= shr_m (SpecFloat.iter_pos shr_1 n (shr_1 r)))
      by (eapply (Hstep (shr_1 r) (Zpos n)); auto; lia).
    destruct (IH _ H2) as [E3 B3].
    rewrite E3, B3, E2, E1, !Z.shiftr_shiftr by lia. split.
    + f_equal. lia.
    + rewrite Z.shiftr_spec by lia. f_equal. lia.
  - destruct (IH _ Hr) as [E2 _].
    assert (H2 : 0 <= shr_m (SpecFloat.iter_pos shr_1 n r))
      by (eapply (Hstep r (Zpos n)); auto; lia).
    destruct (IH _ H2) as [E3 B3].
    rewrite E3, B3, E2, !Z.shiftr_shiftr by lia. split.
    + f_equal. lia.
    + rewrite Z.shiftr_spec by lia. f_equal. lia.
  - apply shr_1_spec; auto.
Qed.

Lemma fexp64 x : -1021 <= x -> fexp prec emax x = x - 53.
Proof. intros H. unfold fexp, SpecFloat.emin, prec, emax. lia. Qed.

Lemma digits_unique q k :
  2 ^ (k - 1) <= Zpos q < 2 ^ k -> 0 < k -> Zpos (digits2_pos q) = k.
Proof.
  intros [Hlo Hhi] Hk. pose proof (digits2_pos_bounds q) as [Dlo Dhi].
  set (d := Zpos (digits2_pos q)) in *.
  assert (0 < d) by (subst d; lia).
  assert (d - 1 < k) by (apply (Z.pow_lt_mono_r_iff 2); lia).
  assert (k - 1 < d) by (apply (Z.pow_lt_mono_r_iff 2); lia).
  lia.
Qed.

Lemma round_nearest_even_cases m mrs :
  let m2 := round_nearest_even m (loc_of_shr_record mrs) in
  m <= m2 <= m + 1 /\
  (shr_r mrs = false -> m2 = m) /\
  (shr_r mrs = true -> Z.odd m = true -> m2 = m + 1).
Proof.
  destruct mrs as [m0 [] []]; simpl; rewrite <- ?Z.negb_odd;
    destruct (Z.odd m); simpl; repeat split; intros; try lia; try discriminate.
Qed.

Lemma shr_pos mrs e k :
  0 <= shr_m mrs ->
  exists mrs', shr mrs e (Zpos k) = (mrs', e + Zpos k) /\
    shr_m mrs' = Z.shiftr (shr_m mrs) (Zpos k) /\
    shr_r mrs' = Z.testbit (shr_m mrs) (Zpos k - 1).
Proof.
  intros H. unfold shr. eexists. split; [reflexivity|]. now apply iter_shr_1_spec.
Qed.

(** Rounding an integer of at least 54 bits to a double. *)
Lemma binary_round_large s p :
  let d := Zpos (digits2_pos p) in
  let n := d - 53 in
  let m1 := Z.shiftr (Zpos p) n in
  54 <= d ->
  exists m2,
    m1 <= m2 <= m1 + 1 /\
    (Z.testbit (Zpos p) (n - 1) = false -> m2 = m1) /\
    (Z.testbit (Zpos p) (n - 1) = true -> Z.odd m1 = true -> m2 = m1 + 1) /\
    binary_round prec emax s p 0 =
      if m2 <? 2 ^ 53
      then if n <=? 971 then S754_finite s (Z.to_pos m2) n else S754_infinity s
      else if n + 1 <=? 971 then S754_finite s (Z.to_pos (2 ^ 52)) (n + 1)
           else S754_infinity s.
Proof.
  intros d n m1 Hd.
  pose proof (digits2_pos_bounds p) as [Dlo Dhi]. fold d in Dlo, Dhi.
  assert (Hm1 : 2 ^ 52 <= m1 < 2 ^ 53).
  { subst m1. rewrite Z.shiftr_div_pow2 by lia.
    assert (0 < 2 ^ n) by (apply Z.pow_pos_nonneg; lia).
    replace (d - 1) with (52 + n) in Dlo by lia.
    replace d with (53 + n) in Dhi by lia.
    rewrite Z.pow_add_r in Dlo, Dhi by lia. split.
    - apply Z.div_le_lower_bound; lia.
    - apply Z.div_lt_upper_bound; lia. }
  destruct n as [|k|k] eqn:En; try lia.
  assert (Hshl : shl_align p 0 (fexp prec emax (d + 0)) = (p, 0)).
  { rewrite fexp64 by lia. unfold shl_align.
    now replace (d + 0 - 53 - 0) with (Zpos k) by lia. }
  assert (E1 : exists mrs', shr_fexp prec emax (Zpos p) 0 loc_Exact = (mrs', Zpos k) /\
             shr_m mrs' = m1 /\ shr_r mrs' = Z.testbit (Zpos p) (Zpos k - 1)).
  { unfold shr_fexp. simpl Zdigits2. fold d. rewrite fexp64 by lia.
    replace (d + 0 - 53 - 0) with (Zpos k) by lia.
    apply (shr_pos {| shr_m := Zpos p; shr_r := false; shr_s := false |} 0 k).
    simpl. lia. }
  destruct E1 as (mrs' & E1 & Em & Er).
  destruct (round_nearest_even_cases (shr_m mrs') mrs') as (Hr1 & Hr2 & Hr3).
  set (m2 := round_nearest_even (shr_m mrs') (loc_of_shr_record mrs')) in *.
  rewrite Em in Hr1, Hr2, Hr3. rewrite Er in Hr2, Hr3.
  exists m2. repeat split; try lia; auto.
  unfold binary_round. fold d. rewrite Hshl.
  unfold binary_round_aux. rewrite E1. fold m2.
  destruct m2 as [|q|q] eqn:Eq2; try lia.
  unfold shr_fexp. simpl Zdigits2. simpl shr_record_of_loc.
  destruct (Z.ltb_spec (Zpos q) (2 ^ 53)) as [Hlt|Hge].
  - rewrite (digits_unique q 53) by (simpl; lia).
    rewrite fexp64 by lia. replace (53 + Zpos k - 53 - Zpos k) with 0 by lia.
    reflexivity.
  - assert (Hq : Zpos q = 2 ^ 53) by lia.
    rewrite (digits_unique q 54) by (simpl; lia).
    rewrite fexp64 by lia. replace (54 + Zpos k - 53 - Zpos k) with 1 by lia.
    injection Hq as ->. reflexivity.
Qed.

Lemma digits2_pos_iter_xO p k :
  Zpos (digits2_pos (Pos.iter xO p k)) = Zpos (digits2_pos p) + Zpos k.
Proof.
  induction k as [|k IH] using Pos.peano_ind.
  - simpl. lia.
  - rewrite Pos.iter_succ. simpl digits2_pos. lia.
Qed.

(** An integer of at most 53 bits is a double. *)
Lemma binary_round_small s p :
  Zpos (digits2_pos p) <= 53 ->
  exists m e, binary_round prec emax s p 0 = S754_finite s m e.
Proof.
  set (d := Zpos (digits2_pos p)). intros Hd.
  assert (0 < d) by (subst d; lia).
  assert (Hshl : exists mz, shl_align p 0 (fexp prec emax (d + 0)) = (mz, d - 53) /\
                   Zpos (digits2_pos mz) = 53).
  { rewrite fexp64 by lia. unfold shl_align.
    destruct (d + 0 - 53 - 0) as [|k|k] eqn:Ek; try lia.
    - exists p. split; [f_equal; lia | fold d; lia].
    - exists (Pos.iter xO p k). split; [f_equal; lia|].
      rewrite digits2_pos_iter_xO. fold d. lia. }
  destruct Hshl as (mz & Hshl & Hmz).
  assert (E : forall l, shr_fexp prec emax (Zpos mz) (d - 53) l =
                        (shr_record_of_loc (Zpos mz) l, d - 53)).
  { intros l. unfold shr_fexp. simpl Zdigits2. rewrite Hmz, fexp64 by lia.
    now replace (53 + (d - 53) - 53 - (d - 53)) with 0 by lia. }
  exists mz, (d - 53).
  unfold binary_round. fold d. rewrite Hshl.
  unfold binary_round_aux. rewrite E. simpl. rewrite E. simpl.
  destruct (Z.leb_spec (d - 53) (emax - prec)) as [_|Hgt]; [reflexivity|].
  unfold emax, prec in Hgt. lia.
Qed.

Lemma float_of_int_bound_eq : float_of_int_bound = (2 ^ 54 - 1) * 2 ^ 970.
Proof. reflexivity. Qed.

(** Where rounding to a double overflows. *)
Lemma binary_round_overflow s p :
  (Zpos p < float_of_int_bound ->
     exists m e, binary_round prec emax s p 0 = S754_finite s m e) /\
  (float_of_int_bound <= Zpos p ->
     binary_round prec emax s p 0 = S754_infinity s).
Proof.
  rewrite float_of_int_bound_eq.
  pose proof (digits2_pos_bounds p) as [Dlo Dhi].
  assert (P970 : 0 < 2 ^ 970) by (apply Z.pow_pos_nonneg; lia).
  destruct (Z.le_gt_cases (Zpos (digits2_pos p)) 53) as [Hd|Hd].
  { split; [intros _; now apply binary_round_small|].
    intros Hp. exfalso.
    assert (2 ^ Zpos (digits2_pos p) <= 2 ^ 53) by (apply Z.pow_le_mono_r; lia).
    assert (2 ^ 53 * 1 <= (2 ^ 54 - 1) * 2 ^ 970) by (apply Z.mul_le_mono_nonneg; lia).
    lia. }
  destruct (binary_round_large s p ltac:(lia)) as (m2 & Hm2 & Hdown & Hup & ->).
  set (d := Zpos (digits2_pos p)) in *.
  set (t := Zpos p / 2 ^ 970).
  assert (Ht : d = 1024 -> Z.shiftr (Zpos p) (d - 53) = t / 2 /\
                 Z.testbit (Zpos p) (d - 53 - 1) = Z.odd t /\ 2 ^ 53 <= t < 2 ^ 54).
  { intros ->. replace (1024 - 53) with (970 + 1) by lia.
    replace (970 + 1 - 1) with 970 by lia.
    rewrite Z.testbit_odd, !Z.shiftr_div_pow2 by lia. repeat split.
    - rewrite Z.pow_add_r, <- Z.div_div by lia. reflexivity.
    - apply Z.div_le_lower_bound; [lia|].
      replace (1024 - 1) with (970 + 53) in Dlo by lia.
      rewrite Z.pow_add_r in Dlo by lia. lia.
    - apply Z.div_lt_upper_bound; [lia|].
      replace 1024 with (970 + 54) in Dhi by lia.
      rewrite Z.pow_add_r in Dhi by lia. lia. }
  split; intros Hp.
  - assert (d <= 1024).
    { assert (d - 1 < 1024); [|lia]. apply (Z.pow_lt_mono_r_iff 2); lia. }
    destruct (Z.eq_dec d 1024) as [E|E].
    + destruct (Ht E) as (Hs & Hb & Hr). rewrite Hs in Hm2, Hdown, Hup.
      rewrite Hb in Hdown, Hup.
      assert (t < 2 ^ 54 - 1) by (apply Z.div_lt_upper_bound; lia).
      assert (m2 < 2 ^ 53).
      { pose proof (Zmod_odd t) as Hmod.
        pose proof (Z.div_mod t 2 ltac:(lia)) as Hdm.
        destruct (Z.odd t) eqn:Ot; [lia|].
        rewrite Hdown by reflexivity. lia. }
      destruct (Z.ltb_spec m2 (2 ^ 53)); [|lia].
      destruct (Z.leb_spec (d - 53) 971); [|lia]. eauto.
    + destruct (Z.ltb_spec m2 (2 ^ 53)).
      * destruct (Z.leb_spec (d - 53) 971); [|lia]. eauto.
      * destruct (Z.leb_spec (d - 53 + 1) 971); [|lia]. eauto.
  - assert (1024 <= d).
    { assert (1023 < d); [|lia]. apply (Z.pow_lt_mono_r_iff 2); lia. }
    destruct (Z.eq_dec d 1024) as [E|E].
    + destruct (Ht E) as (Hs & Hb & Hr). rewrite Hs in Hm2, Hdown, Hup.
      rewrite Hb in Hdown, Hup.
      assert (2 ^ 54 - 1 <= t) by (apply Z.div_le_lower_bound; lia).
      assert (Et : t = 2 ^ 54 - 1) by lia.
      rewrite Et in Hup. specialize (Hup eq_refl eq_refl).
      change ((2 ^ 54 - 1) / 2 + 1) with (2 ^ 53) in Hup. subst m2.
      rewrite Z.ltb_irrefl. destruct (Z.leb_spec (d - 53 + 1) 971); [lia|reflexivity].
    + destruct (Z.ltb_spec m2 (2 ^ 53)).
      * destruct (Z.leb_spec (d - 53) 971); [lia|reflexivity].
      * destruct (Z.leb_spec (d - 53 + 1) 971); [lia|reflexivity].
Qed.

(** [float(n)] is the nearest double below [2^1024 - 2^970] in absolute
    value and [OverflowError] from there on. *)
Lemma float_of_int_spec n :
  float_of_int n =
  if Z.abs n <? float_of_int_bound then Ok (nearest_double n) else Raise OverflowError.
Proof.
  unfold float_of_int, nearest_double.
  destruct n as [|p|p]; [reflexivity| |];
    change (Z.abs _) with (Zpos p); simpl binary_normalize;
    [destruct (binary_round_overflow false p) as [Hfin Hinf]
    |destruct (binary_round_overflow true p) as [Hfin Hinf]];
    (destruct (Z.ltb_spec (Zpos p) float_of_int_bound) as [H|H];
      [destruct (Hfin H) as (m & e & ->); reflexivity
      |rewrite (Hinf H); reflexivity]).
Qed.

End Int_to_float.

(** ** Order and arithmetic on [float], through their specification *)

Section Float_order.

Lemma leb_zero x : (0 <=? x) = sf_nonneg (Prim2SF x).
Proof.
  rewrite FloatAxioms.leb_spec. change (Prim2SF 0) with (S754_zero false).
  destruct (Prim2SF x) as [s|s| |s m e]; try reflexivity; now destruct s.
Qed.

Lemma ltb_zero x : (0 <? x) = sf_pos (Prim2SF x).
Proof.
  rewrite FloatAxioms.ltb_spec. change (Prim2SF 0) with (S754_zero false).
  destruct (Prim2SF x) as [s|s| |s m e]; try reflexivity; now destruct s.
Qed.

Lemma sf_pos_nonneg x : sf_pos x = true -> sf_nonneg x = true.
Proof. now destruct x. Qed.

(** [x <= 0] excludes [0 < x]. *)
Lemma leb_zero_not_ltb x : (x <=? 0) = true -> (0 <? x) = false.
Proof.
  rewrite FloatAxioms.leb_spec, ltb_zero. change (Prim2SF 0) with (S754_zero false).
  destruct (Prim2SF x) as [s|s| |s m e]; try reflexivity; now destruct s.
Qed.

Lemma not_infinity x : (x =? infinity) = false -> Prim2SF x <> S754_infinity false.
Proof.
  rewrite FloatAxioms.eqb_spec. change (Prim2SF infinity) with (S754_infinity false).
  intros H E. now rewrite E in H.
Qed.

Lemma add_nonneg b a :
  (0 <=? b) = true -> (0 <? a) = true -> (0 <=? b + a) = true.
Proof.
  rewrite !leb_zero, ltb_zero, FloatAxioms.add_spec. intros Hb Ha.
  apply SFadd_nonneg; auto using sf_pos_nonneg.
Qed.

Lemma sub_nonneg b a :
  (0 <? a) = true -> (a <=? b) = true -> (a =? infinity) = false ->
  (0 <=? b - a) = true.
Proof.
  rewrite leb_zero, ltb_zero, FloatAxioms.leb_spec, FloatAxioms.sub_spec. intros Ha Hle Hinf.
  apply SFsub_nonneg; auto using Prim2SF_valid, not_infinity.
Qed.

Lemma SF2Prim_nonneg r : sf_nonneg r = true -> (0 <=? SF2Prim r) = true.
Proof.
  destruct r as [s|s| |s m e]; try discriminate.
  - now destruct s.
  - now destruct s.
  - destruct s; [discriminate|]. intros _. simpl SF2Prim. unfold Z.ldexp.
    rewrite leb_zero, FloatAxioms.ldshiftexp_spec. apply SFldexp_nonneg.
    rewrite FloatAxioms.of_uint63_spec. apply binary_normalize_nonneg.
    apply Uint63.to_Z_bounded.
Qed.

Lemma hundredths_nonneg n : sf_nonneg (hundredths false n) = true.
Proof.
  destruct n; try reflexivity. apply SFdiv_finite_nonneg.
Qed.

(** Rounding to two decimals keeps a value that is not negative so. *)
Lemma round2_nonneg x : (0 <=? x) = true -> (0 <=? round2 x) = true.
Proof.
  intros H. unfold round2. pose proof H as H'. rewrite leb_zero in H'.
  destruct (Prim2SF x) as [s|s| |s m e]; try exact H.
  destruct s; [discriminate|].
  apply SF2Prim_nonneg, hundredths_nonneg.
Qed.

Lemma SFcompare_antisym x y :
  SFcompare y x = option_map CompOpp (SFcompare x y).
Proof.
  destruct x as [s1|s1| |s1 m1 e1], y as [s2|s2| |s2 m2 e2]; simpl;
    try reflexivity; try (destruct s1; reflexivity); try (destruct s2; reflexivity);
    try (destruct s1, s2; reflexivity).
  destruct s1, s2; simpl; try reflexivity;
    rewrite (Z.compare_antisym e1 e2); destruct (e1 ?= e2)%Z; simpl; try reflexivity;
    change (Pos.compare_cont Eq m2 m1) with (m2 ?= m1)%positive;
    change (Pos.compare_cont Eq m1 m2) with (m1 ?= m2)%positive;
    rewrite (Pos.compare_antisym m1 m2); now destruct (m1 ?= m2)%positive.
Qed.

(** [x < y] excludes [y <= x]. *)
Lemma ltb_not_leb x y : (x <? y) = true -> (y <=? x) = false.
Proof.
  rewrite FloatAxioms.ltb_spec, FloatAxioms.leb_spec. unfold SFltb, SFleb.
  rewrite (SFcompare_antisym (Prim2SF x) (Prim2SF y)).
  now destruct (SFcompare (Prim2SF x) (Prim2SF y)) as [[]|].
Qed.

End Float_order.

(** ** Rounding and order

    Where the result of a correctly rounded operation lies, relative to a
    double on one side of the exact value. *)

Section Rounding_bounds.

Local Open Scope Z_scope.

Lemma fexp_max x : fexp prec emax x = Z.max (x - 53) (-1074).
Proof. reflexivity. Qed.

(** Rounding [p * 2^ez] to a double, [ez] no smaller than the least
    exponent: either the mantissa fits and is kept, or it is shifted right
    by [n] bits to 53 bits and rounded up by at most one. *)
Lemma binary_round_cases s p ez :
  let d := Zpos (digits2_pos p) in
  let e := fexp prec emax (d + ez) in
  -1074 <= ez ->
  (e <= ez -> e <= 971 ->
     exists mz, Zpos mz = Zpos p * 2 ^ (ez - e) /\
       binary_round prec emax s p ez = S754_finite s mz e) /\
  (ez < e ->
     let m1 := Z.shiftr (Zpos p) (e - ez) in
     2 ^ 52 <= m1 < 2 ^ 53 /\
     exists m2, m1 <= m2 <= m1 + 1 /\
       binary_round prec emax s p ez =
         if m2 <? 2 ^ 53
         then if e <=? 971 then S754_finite s (Z.to_pos m2) e else S754_infinity s
         else if e + 1 <=? 971 then S754_finite s (Z.to_pos (2 ^ 52)) (e + 1)
              else S754_infinity s).
Proof.
  intros d e Hez.
  pose proof (digits2_pos_bounds p) as [Dlo Dhi]. fold d in Dlo, Dhi.
  assert (Hd : 0 < d) by (subst d; lia).
  assert (He : e = Z.max (d + ez - 53) (-1074)) by apply fexp_max.
  split.
  - intros Hle H971.
    assert (Hshl : exists mz, shl_align p ez e = (mz, e) /\
                     Zpos mz = Zpos p * 2 ^ (ez - e) /\
                     Zpos (digits2_pos mz) = d + (ez - e)).
    { unfold shl_align. destruct (e - ez) as [|k|k] eqn:Ek; try lia.
      - exists p. replace (ez - e) with 0 by lia. rewrite Z.pow_0_r.
        repeat split; first [lia | fold d; lia | f_equal; lia].
      - exists (Pos.iter xO p k). rewrite iter_xO_shift, digits2_pos_iter_xO. fold d.
        repeat split; first [lia | f_equal; f_equal; lia]. }
    destruct Hshl as (mz & Hshl & Hval & Hmz). exists mz. split; [exact Hval|].
    assert (E : forall l, shr_fexp prec emax (Zpos mz) e l =
                          (shr_record_of_loc (Zpos mz) l, e)).
    { intros l. unfold shr_fexp. simpl Zdigits2. rewrite Hmz.
      replace (d + (ez - e) + e) with (d + ez) by lia. fold e.
      now rewrite Z.sub_diag. }
    unfold binary_round. fold d. fold e. rewrite Hshl.
    unfold binary_round_aux. rewrite E. simpl. rewrite E. simpl.
    destruct (Z.leb_spec e (emax - prec)) as [_|Hgt]; [reflexivity|].
    unfold emax, prec in Hgt. lia.
  - intros Hlt m1.
    assert (En : e = d + ez - 53) by lia.
    destruct (e - ez) as [|k|k] eqn:Ek; try lia.
    assert (Hm1 : 2 ^ 52 <= m1 < 2 ^ 53).
    { subst m1. rewrite Z.shiftr_div_pow2 by lia.
      assert (0 < 2 ^ Zpos k) by (apply Z.pow_pos_nonneg; lia).
      replace (d - 1) with (52 + Zpos k) in Dlo by lia.
      replace d with (53 + Zpos k) in Dhi by lia.
      rewrite Z.pow_add_r in Dlo, Dhi by lia. split.
      - apply Z.div_le_lower_bound; lia.
      - apply Z.div_lt_upper_bound; lia. }
    split; [exact Hm1|].
    assert (Hshl : shl_align p ez e = (p, ez)).
    { unfold shl_align. now rewrite Ek. }
    assert (E1 : exists mrs', shr_fexp prec emax (Zpos p) ez loc_Exact = (mrs', e) /\
               shr_m mrs' = m1).
    { unfold shr_fexp. simpl Zdigits2. fold d. fold e. rewrite Ek.
      simpl shr_record_of_loc.
      destruct (shr_pos {| shr_m := Zpos p; shr_r := false; shr_s := false |} ez k)
        as (mrs' & E & Em & _); [simpl; lia|].
      exists mrs'. split; [rewrite E; f_equal; lia|exact Em]. }
    destruct E1 as (mrs' & E1 & Em).
    destruct (round_nearest_even_cases (shr_m mrs') mrs') as (Hr1 & _).
    set (m2 := round_nearest_even (shr_m mrs') (loc_of_shr_record mrs')) in *.
    rewrite Em in Hr1. exists m2. split; [exact Hr1|].
    unfold binary_round. fold d. fold e. rewrite Hshl.
    unfold binary_round_aux. rewrite E1. fold m2.
    destruct m2 as [|q|q] eqn:Eq2; try lia.
    unfold shr_fexp. simpl Zdigits2. simpl shr_record_of_loc.
    destruct (Z.ltb_spec (Zpos q) (2 ^ 53)) as [Hq|Hq].
    + rewrite (digits_unique q 53) by (simpl; lia).
      rewrite fexp_max. replace (Z.max (53 + e - 53) (-1074) - e) with 0 by lia.
      reflexivity.
    + assert (Hq' : Zpos q = 2 ^ 53) by lia.
      rewrite (digits_unique q 54) by (simpl; lia).
      rewrite fexp_max. replace (Z.max (54 + e - 53) (-1074) - e) with 1 by lia.
      injection Hq' as ->. reflexivity.
Qed.

Lemma SFleb_finite m1 e1 m2 e2 :
  e1 < e2 \/ (e1 = e2 /\ Zpos m1 <= Zpos m2) ->
  SFleb (S754_finite false m1 e1) (S754_finite false m2 e2) = true.
Proof.
  unfold SFleb, SFcompare. intros [H|[-> H]].
  - now rewrite (proj2 (Z.compare_lt_iff e1 e2) H).
  - rewrite Z.compare_refl. change (Pos.compare_cont Eq m1 m2) with (m1 ?= m2)%positive.
    destruct (Pos.compare_spec m1 m2); try reflexivity. lia.
Qed.

(** A canonical mantissa with its exponent: [fexp] gives the exponent
    back. *)
Lemma bounded_canonical m e :
  bounded prec emax m e = true ->
  fexp prec emax (Zpos (digits2_pos m) + e) = e /\ e <= 971.
Proof.
  unfold bounded, canonical_mantissa. intros H.
  apply andb_prop in H as [H1 H2]. apply Z.eqb_eq in H1. apply Z.leb_le in H2.
  split; [exact H1|]. unfold emax, prec in H2. lia.
Qed.

Lemma digits_le_of_lt p q k :
  0 <= k -> Zpos p < Zpos q * 2 ^ k ->
  Zpos (digits2_pos p) <= Zpos (digits2_pos q) + k.
Proof.
  intros Hk H. pose proof (digits2_pos_bounds p) as [Plo _].
  pose proof (digits2_pos_bounds q) as [_ Qhi].
  assert (0 < 2 ^ k) by (apply Z.pow_pos_nonneg; lia).
  assert (Zpos p < 2 ^ (Zpos (digits2_pos q) + k)).
  { rewrite Z.pow_add_r by lia. nia. }
  assert (Zpos (digits2_pos p) - 1 < Zpos (digits2_pos q) + k); [|lia].
  apply (Z.pow_lt_mono_r_iff 2); lia.
Qed.

Lemma digits_ge_of_le p q k :
  0 <= k -> Zpos q * 2 ^ k <= Zpos p ->
  Zpos (digits2_pos q) + k <= Zpos (digits2_pos p).
Proof.
  intros Hk H. pose proof (digits2_pos_bounds p) as [_ Phi].
  pose proof (digits2_pos_bounds q) as [Qlo _].
  assert (0 < 2 ^ k) by (apply Z.pow_pos_nonneg; lia).
  assert (2 ^ (Zpos (digits2_pos q) - 1 + k) < 2 ^ Zpos (digits2_pos p)).
  { rewrite Z.pow_add_r by lia. nia. }
  assert (Zpos (digits2_pos q) - 1 + k < Zpos (digits2_pos p)); [|lia].
  apply (Z.pow_lt_mono_r_iff 2); lia.
Qed.

(** Rounding stays below a double that lies above the exact value. *)
Lemma round_below p ez mb eb :
  bounded prec emax mb eb = true -> -1074 <= ez <= eb ->
  Zpos p < Zpos mb * 2 ^ (eb - ez) ->
  SFleb (binary_round prec emax false p ez) (S754_finite false mb eb) = true.
Proof.
  intros Hb Hez Hlt.
  destruct (bounded_canonical mb eb Hb) as [Hcan H971].
  pose proof (bounded_digits mb eb Hb) as (Hmb & _ & _).
  pose proof (digits_le_of_lt p mb (eb - ez) ltac:(lia) Hlt) as Hd.
  destruct (binary_round_cases false p ez ltac:(lia)) as [HA HB].
  set (d := Zpos (digits2_pos p)) in *. set (e := fexp prec emax (d + ez)) in *.
  assert (Hle : e <= eb).
  { subst e. rewrite fexp_max. rewrite fexp_max in Hcan. lia. }
  destruct (Z.le_gt_cases e ez) as [Hc|Hc].
  - destruct (HA Hc ltac:(lia)) as (mz & Hmz & ->).
    apply SFleb_finite. destruct (Z.eq_dec e eb) as [E|E]; [right|left; lia].
    split; [exact E|]. replace (ez - e) with 0 in Hmz by lia.
    replace (eb - ez) with 0 in Hlt by lia. lia.
  - destruct (HB ltac:(lia)) as (Hm1 & m2 & Hm2 & ->).
    set (n := e - ez) in *.
    assert (Hpn : 0 < 2 ^ n) by (apply Z.pow_pos_nonneg; lia).
    assert (Hk : Z.shiftr (Zpos p) n < Zpos mb * 2 ^ (eb - e)).
    { rewrite Z.shiftr_div_pow2 by lia. apply Z.div_lt_upper_bound; [lia|].
      replace (eb - ez) with (n + (eb - e)) in Hlt by lia.
      rewrite Z.pow_add_r in Hlt by lia. lia. }
    destruct (Z.ltb_spec m2 (2 ^ 53)) as [H2|H2].
    + destruct (Z.leb_spec e 971); [|lia].
      apply SFleb_finite. destruct (Z.eq_dec e eb) as [E|E]; [right|left; lia].
      split; [exact E|]. rewrite Z2Pos.id by lia.
      replace (eb - e) with 0 in Hk by lia. lia.
    + assert (1 <= eb - e).
      { destruct (Z.eq_dec e eb) as [E|E]; [|lia].
        replace (eb - e) with 0 in Hk by lia. lia. }
      destruct (Z.leb_spec (e + 1) 971); [|lia].
      apply SFleb_finite. destruct (Z.eq_dec (e + 1) eb) as [E|E]; [right|left; lia].
      split; [exact E|]. rewrite Z2Pos.id by lia.
      replace (eb - e) with 1 in Hk by lia. lia.
Qed.

(** Rounding stays above a double that lies below the exact value. *)
Lemma round_above p ez mb eb :
  bounded prec emax mb eb = true -> -1074 <= ez <= eb ->
  Zpos mb * 2 ^ (eb - ez) <= Zpos p ->
  SFleb (S754_finite false mb eb) (binary_round prec emax false p ez) = true.
Proof.
  intros Hb Hez Hle.
  destruct (bounded_canonical mb eb Hb) as [Hcan H971].
  pose proof (digits_ge_of_le p mb (eb - ez) ltac:(lia) Hle) as Hd.
  destruct (binary_round_cases false p ez ltac:(lia)) as [HA HB].
  set (d := Zpos (digits2_pos p)) in *. set (e := fexp prec emax (d + ez)) in *.
  assert (Hge : eb <= e).
  { subst e. rewrite fexp_max. rewrite fexp_max in Hcan. lia. }
  destruct (Z.le_gt_cases e ez) as [Hc|Hc].
  - destruct (HA Hc ltac:(lia)) as (mz & Hmz & ->).
    apply SFleb_finite. right. split; [lia|].
    replace (ez - e) with 0 in Hmz by lia.
    replace (eb - ez) with 0 in Hle by lia. lia.
  - destruct (HB ltac:(lia)) as (Hm1 & m2 & Hm2 & ->).
    set (n := e - ez) in *.
    assert (Hpn : 0 < 2 ^ n) by (apply Z.pow_pos_nonneg; lia).
    destruct (Z.ltb_spec m2 (2 ^ 53)) as [H2|H2].
    + destruct (Z.leb_spec e 971); [|reflexivity].
      apply SFleb_finite. destruct (Z.eq_dec e eb) as [E|E]; [right|left; lia].
      split; [lia|]. rewrite Z2Pos.id by lia.
      assert (Zpos mb <= Z.shiftr (Zpos p) n); [|lia].
      rewrite Z.shiftr_div_pow2 by lia. apply Z.div_le_lower_bound; [lia|].
      replace (eb - ez) with n in Hle by lia. lia.
    + destruct (Z.leb_spec (e + 1) 971); [|reflexivity].
      apply SFleb_finite. left. lia.
Qed.

End Rounding_bounds.

Section Float_bounds.

(** A payment the guard accepts does not raise the balance. *)
Lemma sub_le b a :
  (0 <? a) = true -> (a <=? b) = true -> (a =? infinity) = false ->
  (b - a <=? b) = true.
Proof.
  rewrite ltb_zero, !FloatAxioms.leb_spec, FloatAxioms.sub_spec.
  intros Ha Hle Hinf. apply not_infinity in Hinf.
  pose proof (Prim2SF_valid a) as Va. pose proof (Prim2SF_valid b) as Vb.
  destruct (Prim2SF a) as [sa|sa| |sa ma ea]; try discriminate;
    destruct sa; try discriminate; [now elim Hinf|].
  destruct (Prim2SF b) as [sb|sb| |sb mb eb]; try discriminate;
    destruct sb; try discriminate; [reflexivity|].
  unfold SF64sub, SFsub.
  pose proof (SFleb_finite_aligned _ _ _ _ Va Vb Hle) as Hal.
  pose proof (bounded_digits _ _ Va) as (_ & Hea & _).
  pose proof (bounded_digits _ _ Vb) as (_ & Heb & _).
  simpl cond_Zopp. rewrite !shl_align_fst by lia.
  set (ez := Z.min eb ea) in *.
  assert (0 < Zpos ma * 2 ^ (ea - ez))%Z
    by (apply Z.mul_pos_pos; [lia|apply Z.pow_pos_nonneg; lia]).
  destruct (Zpos mb * 2 ^ (eb - ez) - Zpos ma * 2 ^ (ea - ez))%Z as [|p|p] eqn:E;
    [reflexivity| |lia].
  simpl binary_normalize. apply round_below; [exact Vb|lia|lia].
Qed.

(** A charge does not lower a balance that is not negative. *)
Lemma add_ge b a :
  (0 <=? b) = true -> (0 <? a) = true -> (b <=? b + a) = true.
Proof.
  rewrite leb_zero, ltb_zero, FloatAxioms.leb_spec, FloatAxioms.add_spec.
  intros Hb Ha.
  pose proof (Prim2SF_valid a) as Va. pose proof (Prim2SF_valid b) as Vb.
  destruct (Prim2SF a) as [sa|sa| |sa ma ea]; try discriminate;
    destruct sa; try discriminate;
    destruct (Prim2SF b) as [sb|sb| |sb mb eb]; try discriminate;
    try (destruct sb; try discriminate; reflexivity).
  destruct sb; try discriminate.
  unfold SF64add, SFadd.
  pose proof (bounded_digits _ _ Va) as (_ & Hea & _).
  pose proof (bounded_digits _ _ Vb) as (_ & Heb & _).
  simpl cond_Zopp. rewrite !shl_align_fst by lia.
  set (ez := Z.min eb ea) in *.
  assert (0 < Zpos ma * 2 ^ (ea - ez))%Z
    by (apply Z.mul_pos_pos; [lia|apply Z.pow_pos_nonneg; lia]).
  assert (0 < Zpos mb * 2 ^ (eb - ez))%Z
    by (apply Z.mul_pos_pos; [lia|apply Z.pow_pos_nonneg; lia]).
  destruct (Zpos mb * 2 ^ (eb - ez) + Zpos ma * 2 ^ (ea - ez))%Z as [|p|p] eqn:E;
    [lia| |lia].
  simpl binary_normalize. apply round_above; [exact Vb|lia|lia].
Qed.

End Float_bounds.

(** ** MemberAccount *)

Section Account.

Lemma add_charge_name m a : name (add_charge m a) = name m.
Proof. unfold add_charge. now destruct (0 <? a). Qed.

Lemma pay_name m a : name (fst (pay m a)) = name m.
Proof. unfold pay. now destruct ((0 <? a) && (a <=? __balance m)). Qed.

Lemma add_charge_nonneg m a :
  (0 <=? __balance m) = true -> (0 <=? __balance (add_charge m a)) = true.
Proof.
  intros H. unfold add_charge. destruct (0 <? a) eqn:Ha; [|exact H].
  now apply add_nonneg.
Qed.

Lemma pay_nonneg m a :
  (a =? infinity) = false ->
  (0 <=? __balance m) = true -> (0 <=? __balance (fst (pay m a))) = true.
Proof.
  intros Hinf H. unfold pay.
  destruct ((0 <? a) && (a <=? __balance m)) eqn:Hc; [|exact H].
  apply andb_prop in Hc as [Ha Hle]. now apply sub_nonneg.
Qed.

Lemma account_step_nonneg m c :
  pays_infinity c = false ->
  (0 <=? __balance m) = true -> (0 <=? __balance (account_step m c)) = true.
Proof.
  destruct c as [a|a]; simpl; intros Hc H.
  - now apply add_charge_nonneg.
  - now apply pay_nonneg.
Qed.

Lemma account_run_nonneg cs : forall m,
  Forall (fun c => pays_infinity c = false) cs ->
  (0 <=? __balance m) = true -> (0 <=? __balance (account_run m cs)) = true.
Proof.
  induction cs as [|c cs IH]; intros m Hcs H; [exact H|].
  inversion_clear Hcs as [|? ? Hc Hcs']. simpl.
  apply IH; [assumption|]. now apply account_step_nonneg.
Qed.

Lemma leb_infinity b : (infinity <=? b) = true -> (b =? infinity) = true.
Proof.
  rewrite FloatAxioms.leb_spec, FloatAxioms.eqb_spec.
  change (Prim2SF infinity) with (S754_infinity false).
  destruct (Prim2SF b) as [s|s| |s m e]; try discriminate; now destruct s.
Qed.

Lemma eqb_infinity a : (a =? infinity) = true -> a = infinity.
Proof.
  rewrite FloatAxioms.eqb_spec. change (Prim2SF infinity) with (S754_infinity false).
  intros H. apply Prim2SF_inj. change (Prim2SF infinity) with (S754_infinity false).
  destruct (Prim2SF a) as [s|s| |s m e]; try discriminate; now destruct s.
Qed.

(** [pay(+inf)] is refused unless the stored balance is [+inf]. *)
Lemma pay_infinity_refused m :
  (__balance m =? infinity) = false -> pay m infinity = (m, false).
Proof.
  intros H. unfold pay. destruct (infinity <=? __balance m) eqn:E.
  - apply leb_infinity in E. congruence.
  - now rewrite andb_false_r.
Qed.

Lemma account_step_safe m c :
  pays_infinity_off_infinity m c = false ->
  (0 <=? __balance m) = true -> (0 <=? __balance (account_step m c)) = true.
Proof.
  destruct c as [a|a]; simpl; intros Hc H.
  - now apply add_charge_nonneg.
  - destruct (a =? infinity) eqn:Ea; [|now apply pay_nonneg].
    apply eqb_infinity in Ea. subst a. simpl in Hc.
    now rewrite pay_infinity_refused.
Qed.

Lemma account_run_safe cs : forall m k,
  breaks_balance m cs = false ->
  (0 <=? __balance m) = true ->
  (0 <=? __balance (account_run m (take k cs))) = true.
Proof.
  induction cs as [|c cs IH]; intros m k Hcs H.
  - now rewrite take_nil.
  - destruct k as [|k]; [exact H|]. simpl in *.
    apply orb_false_elim in Hcs as [Hc Hcs].
    apply IH; [assumption|]. now apply account_step_safe.
Qed.

(** Once NaN, the stored balance stays NaN. *)
Lemma account_run_nan cs : forall m,
  __balance m = nan -> __balance (account_run m cs) = nan.
Proof.
  induction cs as [|c cs IH]; intros m H; [exact H|].
  simpl. apply IH. destruct c as [a|a]; simpl.
  - unfold add_charge. destruct (0 <? a); [|exact H]. simpl. rewrite H.
    apply Prim2SF_inj. rewrite FloatAxioms.add_spec. reflexivity.
  - unfold pay. rewrite H.
    assert (E : (a <=? nan) = false).
    { rewrite FloatAxioms.leb_spec. change (Prim2SF nan) with S754_nan.
      unfold SFleb. now destruct (Prim2SF a). }
    rewrite E, andb_false_r. exact H.
Qed.

Lemma account_step_breaks m c :
  pays_infinity_off_infinity m c = true -> __balance (account_step m c) = nan.
Proof.
  destruct c as [a|a]; simpl; [discriminate|]. intros H.
  apply andb_prop in H as [Ha Hb]. apply eqb_infinity in Ha, Hb. subst a.
  unfold pay. rewrite Hb. reflexivity.
Qed.

Lemma account_run_broken cs : forall m,
  breaks_balance m cs = true ->
  exists k, (0 <=? balance (account_run m (take k cs))) = false.
Proof.
  induction cs as [|c cs IH]; intros m H; [discriminate|]. simpl in H.
  destruct (pays_infinity_off_infinity m c) eqn:Hc.
  - exists (length (c :: cs)). rewrite firstn_all. simpl.
    unfold balance. now rewrite (account_run_nan cs _ (account_step_breaks m c Hc)).
  - destruct (IH _ H) as [k Hk]. now exists (S k).
Qed.

(** C1, as amended: for every member and every sequence of [add_charge] and
    [pay] calls with arbitrary amounts (negative, NaN, infinite, larger than
    the balance), the balance reported by [balance()] is [>= 0] after every
    call (after the first [k] calls, for every [k]) if and only if the
    sequence holds no [pay(+infinity)] made while the stored balance is
    [+infinity]. *)
Theorem balance_never_negative (n : string) (cs : list AccountCall) :
  breaks_balance (new_MemberAccount n) cs = false <->
  forall k, (0 <=? balance (account_run (new_MemberAccount n) (take k cs))) = true.
Proof.
  split.
  - intros H k. unfold balance. apply round2_nonneg.
    now apply account_run_safe.
  - intros H. destruct (breaks_balance (new_MemberAccount n) cs) eqn:E; [|reflexivity].
    destruct (account_run_broken cs _ E) as [k Hk]. now rewrite H in Hk.
Qed.

(** A [pay(+infinity)] on a finite balance is refused and harms nothing. *)
Lemma balance_never_negative_witness :
  (0 <=? balance (account_run (new_MemberAccount "Alex")
                    (take 3 [AddCharge 5; Pay infinity; Pay 2;
                             AddCharge infinity; Pay 7; AddCharge nan]))) = true.
Proof.
  exact (proj1 (balance_never_negative "Alex"
                  [AddCharge 5; Pay infinity; Pay 2;
                   AddCharge infinity; Pay 7; AddCharge nan]) eq_refl 3%nat).
Defined.

(** C1, as stated, fails: charging and then paying [+infinity] passes the
    guard of [pay] and leaves a NaN balance, which is not [>= 0]. *)
Lemma balance_nan_after_paying_infinity :
  let m := account_run (new_MemberAccount "Eve") [AddCharge infinity; Pay infinity] in
  balance m = nan /\ (0 <=? balance m) = false.
Proof. split; reflexivity. Qed.

(** Counterexample to C2 as stated: an accepted payment need not lower the
    balance by the amount paid, and the gate is not the one [balance()]
    shows.  Paying the smallest positive double off a balance of [1.0]
    returns [True] and leaves the account as it was; a stored [0.375] is
    reported as [0.38], and paying the reported figure is refused; a stored
    [0.00390625] is reported as [0.0], and a payment above that figure is
    accepted. *)
Lemma pay_accepted_balance_unchanged :
  (let m := add_charge (new_MemberAccount "Tom") 1 in
   pay m 0x1p-1074 = (m, true)) /\
  (let m := add_charge (new_MemberAccount "Tom") 0.375 in
   (0 <? balance m) = true /\ pay m (balance m) = (m, false)) /\
  (let m := add_charge (new_MemberAccount "Tom") 0.00390625 in
   (balance m <? 0.00390625) = true /\ snd (pay m 0.00390625) = true).
Proof. repeat split; reflexivity. Qed.

(** C2, as amended: for every account with stored (unrounded) balance [b]
    and every amount [a], if [0 < a <= b] then [pay(a)] returns [True] and
    replaces the balance by the double [b - a], which for every [a] other
    than [+inf] satisfies [0 <= b - a <= b] (and may equal [b]); otherwise,
    in particular when [a <= 0] or [a > b], it returns [False] and the
    account is unchanged. *)
Theorem pay_gate (m : MemberAccount) (a : float) :
  let b := __balance m in
  ((0 <? a) = true /\ (a <=? b) = true ->
     pay m a = ({| name := name m; __balance := b - a |}, true) /\
     ((a =? infinity) = false ->
        (0 <=? b - a) = true /\ (b - a <=? b) = true)) /\
  ((0 <? a) = false \/ (a <=? b) = false -> pay m a = (m, false)) /\
  ((a <=? 0) = true \/ (b <? a) = true -> pay m a = (m, false)).
Proof.
  assert (Hno : (0 <? a) = false \/ (a <=? __balance m) = false -> pay m a = (m, false)).
  { unfold pay. intros [-> | ->]; [reflexivity|]. now rewrite andb_false_r. }
  simpl. split; [|split; [exact Hno|]].
  - intros [Ha Hle]. split.
    + unfold pay. now rewrite Ha, Hle.
    + intros Hinf. split; [now apply sub_nonneg | now apply sub_le].
  - intros [H|H]; apply Hno; auto using leb_zero_not_ltb, ltb_not_leb.
Qed.

(** Counterexample to C6 as stated: a charge need not raise the balance by
    its amount.  A charge of [1.0] on a balance of [2^53] leaves the account
    as it was, and two charges of the largest finite double make the balance
    [+inf]. *)
Lemma add_charge_absorbed :
  (let m := add_charge (new_MemberAccount "Tom") 9007199254740992 in
   (0 <? 1) = true /\ add_charge m 1 = m) /\
  (let big := 0x1.fffffffffffffp+1023 in
   let m := add_charge (add_charge (new_MemberAccount "Tom") big) big in
   (big <? infinity) = true /\ __balance m = infinity).
Proof. repeat split; reflexivity. Qed.

(** C6, as amended: for every account with stored balance [b] and every
    amount [a], [add_charge(a)] replaces the balance by the double [b + a]
    when [a > 0], which for [b >= 0] satisfies [b <= b + a] (and may equal
    [b], or be [+inf]); when [a <= 0], and whenever [a > 0] does not hold,
    it returns the account unchanged.  [add_charge] has no failing
    branch. *)
Theorem add_charge_spec (m : MemberAccount) (a : float) :
  let b := __balance m in
  ((0 <? a) = true ->
     add_charge m a = {| name := name m; __balance := b + a |} /\
     ((0 <=? b) = true -> (b <=? b + a) = true /\ (0 <=? b + a) = true)) /\
  ((a <=? 0) = true -> add_charge m a = m) /\
  ((0 <? a) = false -> add_charge m a = m).
Proof.
  simpl. unfold add_charge. split; [|split].
  - intros Ha. rewrite Ha. split; [reflexivity|].
    intros Hb. split; [now apply add_ge | now apply add_nonneg].
  - intros H. now rewrite (leb_zero_not_ltb a H).
  - now intros ->.
Qed.

(** The two misuse tests of the test suite. *)
Example overpay_is_rejected :
  let m := add_charge (new_MemberAccount "Eve") 5 in
  snd (pay m 10) = false /\ balance (fst (pay m 10)) = 5.
Proof. split; reflexivity. Qed.

Example negative_payment_is_rejected :
  let m := add_charge (new_MemberAccount "Nina") 10 in
  snd (pay m (-3)) = false /\ balance (fst (pay m (-3))) = 10.
Proof. split; reflexivity. Qed.

(** The guard of [pay] reads the stored balance, not the rounded figure
    [balance()] reports: half a penny can be paid off a balance shown as
    [0.0]. *)
Remark pay_reads_stored_balance :
  let m := add_charge (new_MemberAccount "Sam") 0.00390625 in
  balance m = 0 /\ snd (pay m 0.00390625) = true.
Proof. split; reflexivity. Qed.

End Account.

(** ** Late-fee policies *)

Section Policies.

Lemma late_fee_per_day_cases item :
  late_fee_per_day item = 0.25 \/ late_fee_per_day item = 0.75.
Proof. unfold late_fee_per_day. destruct (class_of item); auto. Qed.

Lemma int_mul_float_zero item : int_mul_float 0 (late_fee_per_day item) = Ok 0.
Proof. destruct (late_fee_per_day_cases item) as [-> | ->]; reflexivity. Qed.

(** C5: for every item and every integer [days_late], [ChildrenPolicy]
    computes what [StandardPolicy] computes for [max(0, days_late - 2)]:
    the same fee, or the same exception. *)
Theorem children_is_standard_after_two_days (item : LoanItem) (days_late : Z) :
  compute_fee ChildrenPolicy item days_late =
  compute_fee StandardPolicy item (Z.max 0 (days_late - 2)).
Proof.
  simpl. destruct (Z.leb_spec (Z.max 0 (days_late - 2)) 0) as [H|H]; [|reflexivity].
  replace (Z.max 0 (days_late - 2)) with 0%Z by lia.
  apply int_mul_float_zero.
Qed.

Lemma int_mul_float_spec n x :
  int_mul_float n x =
  if (Z.abs n <? float_of_int_bound)%Z then Ok (nearest_double n * x)
  else Raise OverflowError.
Proof.
  unfold int_mul_float. rewrite float_of_int_spec.
  now destruct (Z.abs n <? float_of_int_bound)%Z.
Qed.

(** C4, as amended: for every item, [StandardPolicy.compute_fee] returns
    [0.0] for every [days_late <= 0]; for every
    [0 < days_late < 2^1024 - 2^970] it returns [days_late] converted to the
    nearest double and multiplied by [item.late_fee_per_day()]; from
    [2^1024 - 2^970] on the conversion raises [OverflowError].  It is total
    below that bound only. *)
Theorem standard_fee (item : LoanItem) (days_late : Z) :
  compute_fee StandardPolicy item days_late =
  if (days_late <=? 0)%Z then Ok 0
  else if (days_late <? float_of_int_bound)%Z
       then Ok (nearest_double days_late * late_fee_per_day item)
       else Raise OverflowError.
Proof.
  simpl. destruct (Z.leb_spec days_late 0) as [H|H]; [reflexivity|].
  rewrite int_mul_float_spec. now rewrite Z.abs_eq by lia.
Qed.

(** C4, as stated, fails: [StandardPolicy.compute_fee] is not total over the
    integers.  [2**1024] days late raise [OverflowError]. *)
Lemma standard_fee_overflows :
  compute_fee StandardPolicy Demo.moby (2 ^ 1024) = Raise OverflowError.
Proof. vm_compute. reflexivity. Qed.

End Policies.

(** ** Library *)

Section Library_loans.

Lemma item_eq_oid x item : item_eq x item = true <-> oid x = oid item.
Proof. unfold item_eq. apply Nat.eqb_eq. Qed.

Lemma item_in_false item items :
  item_in item items = false <-> Forall (fun y => oid y <> oid item) items.
Proof.
  induction items as [|x rest IH]; simpl.
  - split; auto.
  - rewrite orb_false_iff, IH, Forall_cons.
    unfold item_eq. now rewrite Nat.eqb_neq.
Qed.

(** [list.remove] takes out the first element equal to the item and
    nothing else. *)
Lemma list_remove_first item items :
  item_in item items = true ->
  exists l1 x l2,
    items = l1 ++ x :: l2 /\ oid x = oid item /\
    Forall (fun y => oid y <> oid item) l1 /\
    list_remove item items = l1 ++ l2.
Proof.
  induction items as [|x rest IH]; simpl; [discriminate|].
  destruct (item_eq x item) eqn:E.
  - intros _. exists [], x, rest. repeat split; auto. now apply item_eq_oid.
  - simpl. intros H. destruct (IH H) as (l1 & y & l2 & -> & Hy & Hl1 & ->).
    exists (x :: l1), y, l2. repeat split; auto.
    constructor; auto. unfold item_eq in E. now apply Nat.eqb_neq.
Qed.

Lemma loans_of_same_name lib m1 m2 :
  name m1 = name m2 -> loans_of lib m1 = loans_of lib m2.
Proof. unfold loans_of. now intros ->. Qed.

Lemma item_in_exists item items :
  Exists (fun x => oid x = oid item) items -> item_in item items = true.
Proof.
  intros H. destruct (item_in item items) eqn:E; [reflexivity|].
  apply item_in_false in E. apply Exists_exists in H as (x & Hx & Ho).
  rewrite Forall_forall in E. now elim (E x Hx).
Qed.

(** The library [return_item] leaves, whatever the fee and the notifier
    do afterwards. *)
Lemma return_item_lib lib m item d :
  lib_after (return_item lib m item d) =
  if item_in item (loans_of lib m)
  then with_loans lib (<[name m := list_remove item (loans_of lib m)]> (_loans lib))
  else lib.
Proof.
  unfold return_item.
  destruct (compute_fee (policy lib) item d) as [fee|e]; [|reflexivity].
  destruct (0 <? fee); now destruct (notify _ _ _).
Qed.

Lemma return_item_loans lib m item d :
  _loans (lib_after (return_item lib m item d)) =
  if item_in item (loans_of lib m)
  then <[name m := list_remove item (loans_of lib m)]> (_loans lib)
  else _loans lib.
Proof.
  rewrite return_item_lib. now destruct (item_in item (loans_of lib m)).
Qed.

(** The member [return_item] leaves and what it prints: the charge is made
    before the notifier is called, and the notifier's outcome is the
    call's. *)
Lemma return_item_member lib m item d :
  let r := return_item lib m item d in
  match compute_fee (policy lib) item d with
  | Ok fee =>
      if 0 <? fee then
        member_after r = add_charge m fee /\
        (printed r, raised r) =
          notify (notifier lib) (add_charge m fee)
            (LateFee (title item) fee (balance (add_charge m fee)))
      else
        member_after r = m /\
        (printed r, raised r) = notify (notifier lib) m (ReturnedOnTime (title item))
  | Raise e => member_after r = m /\ printed r = [] /\ raised r = Some e
  end.
Proof.
  cbv zeta. unfold return_item.
  destruct (compute_fee (policy lib) item d) as [fee|e]; [|auto].
  destruct (0 <? fee); now destruct (notify _ _ _).
Qed.

Lemma return_item_member_after lib m item d :
  member_after (return_item lib m item d) = m \/
  exists fee, (0 <? fee) = true /\
    member_after (return_item lib m item d) = add_charge m fee.
Proof.
  pose proof (return_item_member lib m item d) as H. cbv zeta in H.
  destruct (compute_fee (policy lib) item d) as [fee|e]; [|left; tauto].
  destruct (0 <? fee) eqn:E; [right; exists fee; tauto|left; tauto].
Qed.


Lemma item_in_app_self item items : item_in item (items ++ [item]) = true.
Proof.
  unfold item_in. rewrite existsb_app. simpl. unfold item_eq.
  rewrite Nat.eqb_refl. now rewrite orb_true_r.
Qed.

Lemma loans_of_checkout lib m item m' :
  name m' = name m ->
  loans_of (fst (checkout lib m item)) m' = loans_of lib m ++ [item].
Proof.
  intros E. unfold loans_of at 1. simpl. now rewrite E, lookup_insert_eq.
Qed.

Lemma loans_of_with_loans lib m l :
  loans_of (with_loans lib (<[name m := l]> (_loans lib))) m = l.
Proof. unfold loans_of. simpl. now rewrite lookup_insert_eq. Qed.

(** C8: the loan lists are keyed by member name.  For any two accounts with
    equal names, an item checked out through one is the last entry of
    [list_loans] of the other, and [return_item] through either acts on the
    same list: both calls leave the same library, and in it the first entry
    that is the item is gone from the one list both accounts see. *)
Theorem loans_keyed_by_name (lib : Library) (m1 m2 : MemberAccount)
    (item : LoanItem) (d : Z) :
  name m1 = name m2 ->
  let lib' := fst (checkout lib m1 item) in
  list_loans lib' m2 = list_loans lib m2 ++ [title item] /\
  lib_after (return_item lib' m1 item d) = lib_after (return_item lib' m2 item d) /\
  exists l1 x l2,
    loans_of lib' m1 = l1 ++ x :: l2 /\ loans_of lib' m2 = l1 ++ x :: l2 /\
    oid x = oid item /\ Forall (fun y => oid y <> oid item) l1 /\
    loans_of (lib_after (return_item lib' m2 item d)) m1 = l1 ++ l2 /\
    loans_of (lib_after (return_item lib' m1 item d)) m2 = l1 ++ l2.
Proof.
  intros E lib'. pose proof (loans_of_same_name lib m1 m2 E) as El.
  pose proof (loans_of_same_name lib' m1 m2 E) as El'.
  assert (Hin : item_in item (loans_of lib' m1) = true).
  { subst lib'. rewrite loans_of_checkout by reflexivity. apply item_in_app_self. }
  assert (Hsame : lib_after (return_item lib' m1 item d) =
                  lib_after (return_item lib' m2 item d)).
  { now rewrite !return_item_lib, <- El', E. }
  split; [|split; [exact Hsame|]].
  - unfold list_loans. subst lib'. rewrite loans_of_checkout by auto.
    now rewrite El, map_app.
  - destruct (list_remove_first _ _ Hin) as (l1 & x & l2 & E1 & Hx & Hl1 & Hr).
    exists l1, x, l2. rewrite <- El', <- Hsame, return_item_lib, Hin, Hr.
    repeat split; auto.
    + apply loans_of_with_loans.
    + rewrite (loans_of_same_name _ m2 m1) by auto. apply loans_of_with_loans.
Qed.

Lemma loans_keyed_by_name_witness :
  let a1 := new_MemberAccount "Alice" in
  let a2 := add_charge (new_MemberAccount "Alice") 3 in
  let lib := fst (checkout (Demo.library Demo.console) a1 Demo.matrix) in
  let lib' := fst (checkout lib a1 Demo.moby) in
  list_loans lib' a2 = list_loans lib a2 ++ ["Moby Dick"] /\
  lib_after (return_item lib' a1 Demo.moby 3) = lib_after (return_item lib' a2 Demo.moby 3) /\
  exists l1 x l2,
    loans_of lib' a1 = l1 ++ x :: l2 /\ loans_of lib' a2 = l1 ++ x :: l2 /\
    oid x = oid Demo.moby /\ Forall (fun y => oid y <> oid Demo.moby) l1 /\
    loans_of (lib_after (return_item lib' a2 Demo.moby 3)) a1 = l1 ++ l2 /\
    loans_of (lib_after (return_item lib' a1 Demo.moby 3)) a2 = l1 ++ l2.
Proof.
  exact (loans_keyed_by_name
           (fst (checkout (Demo.library Demo.console) (new_MemberAccount "Alice") Demo.matrix))
           (new_MemberAccount "Alice")
           (add_charge (new_MemberAccount "Alice") 3) Demo.moby 3 eq_refl).
Defined.

(** C9: membership in the loan list is decided by object identity.
    Returning a freshly constructed item, whose title, [max_days] and class
    are those of a held item, removes nothing: the library is left as it
    was.  The fee is computed all the same and, if positive, charged to the
    member's balance, and the late fee is notified. *)
Theorem return_of_a_copy_removes_nothing (lib : Library) (m : MemberAccount)
    (held copy : LoanItem) (d : Z) :
  held ∈ loans_of lib m ->
  title copy = title held -> max_days copy = max_days held ->
  class_of copy = class_of held ->
  Forall (fun y => oid y <> oid copy) (loans_of lib m) ->
  let r := return_item lib m copy d in
  lib_after r = lib /\
  loans_of (lib_after r) m = loans_of lib m /\
  forall fee, compute_fee (policy lib) copy d = Ok fee -> (0 <? fee) = true ->
    let m' := {| name := name m; __balance := __balance m + fee |} in
    member_after r = m' /\
    (printed r, raised r) =
      notify (notifier lib) m' (LateFee (title held) fee (balance m')).
Proof.
  intros _ Ht _ _ Hfresh r. apply item_in_false in Hfresh.
  assert (E : lib_after r = lib) by (subst r; now rewrite return_item_lib, Hfresh).
  split; [exact E|]. split; [now rewrite E|].
  intros fee Hfee Hpos. pose proof (return_item_member lib m copy d) as H.
  cbv zeta in H. rewrite Hfee, Hpos in H. unfold add_charge in H.
  rewrite Hpos, Ht in H. exact H.
Qed.

Lemma return_of_a_copy_removes_nothing_witness :
  let lib := Demo.library2 Demo.console in
  let copy := {| oid := 7; class_of := Book; title := "Moby Dick"; max_days := 14 |} in
  let r := return_item lib Demo.alice copy 3 in
  lib_after r = lib /\
  loans_of (lib_after r) Demo.alice = loans_of lib Demo.alice /\
  forall fee, compute_fee (policy lib) copy 3 = Ok fee -> (0 <? fee) = true ->
    let m' := {| name := name Demo.alice; __balance := __balance Demo.alice + fee |} in
    member_after r = m' /\
    (printed r, raised r) =
      notify (notifier lib) m' (LateFee (title Demo.moby) fee (balance m')).
Proof.
  apply (return_of_a_copy_removes_nothing (Demo.library2 Demo.console) Demo.alice Demo.moby
           {| oid := 7; class_of := Book; title := "Moby Dick"; max_days := 14 |} 3).
  - change (Demo.moby ∈ [Demo.moby; Demo.matrix]). left.
  - reflexivity.
  - reflexivity.
  - reflexivity.
  - change (Forall (fun y => oid y <> 7%nat) [Demo.moby; Demo.matrix]).
    repeat constructor; simpl; lia.
Defined.

(** A name for which nothing was ever checked out is not a key of the
    loan mapping. *)
Lemma library_step_unknown n lib c :
  ~ checks_out_for n c -> _loans lib !! n = None ->
  _loans (library_step lib c) !! n = None.
Proof.
  destruct c as [m i|m i d|m a|m|p]; simpl; intros Hc H; auto.
  - now rewrite lookup_insert_ne.
  - rewrite return_item_loans.
    destruct (item_in i (loans_of lib m)) eqn:Ein; [|exact H].
    destruct (decide (name m = n)) as [<-|Hne].
    + unfold loans_of in Ein. now rewrite H in Ein.
    + now rewrite lookup_insert_ne.
Qed.

Lemma library_run_unknown n calls : forall lib,
  Forall (fun c => ~ checks_out_for n c) calls -> _loans lib !! n = None ->
  _loans (library_run lib calls) !! n = None.
Proof.
  induction calls as [|c calls IH]; intros lib Hcs H; [exact H|].
  inversion_clear Hcs as [|? ? Hc Hcs']. simpl.
  apply IH; [assumption|]. now apply library_step_unknown.
Qed.

(** C10: after any sequence of calls on a new library in which no checkout
    was made for the member's name, [list_loans] returns the empty list and
    [return_item] leaves the library as it is; neither fails on the unknown
    member: [list_loans] returns, the lookup and the removal of
    [return_item] raise nothing, and the call ends with an exception only
    when the fee policy raises it or the notifier does on the one
    notification the call sends (the late fee when the fee is positive,
    "no fee" otherwise). *)
Theorem unknown_member_is_harmless (nt : Notifier) (pg : PaymentGateway)
    (pol : LateFeePolicy) (calls : list LibraryCall) (m : MemberAccount) :
  Forall (fun c => ~ checks_out_for (name m) c) calls ->
  let lib := library_run (new_Library nt pg pol) calls in
  list_loans lib m = [] /\
  forall item d,
    let r := return_item lib m item d in
    lib_after r = lib /\
    match compute_fee (policy lib) item d with
    | Ok fee =>
        (printed r, raised r) =
          notify (notifier lib) (member_after r)
            (if 0 <? fee
             then LateFee (title item) fee (balance (member_after r))
             else ReturnedOnTime (title item))
    | Raise e => printed r = [] /\ raised r = Some e
    end.
Proof.
  intros Hcs lib.
  assert (Hnone : _loans lib !! name m = None).
  { apply library_run_unknown; [assumption|]. apply lookup_empty. }
  assert (Hl : loans_of lib m = []) by (unfold loans_of; now rewrite Hnone).
  split; [unfold list_loans; now rewrite Hl|].
  intros item d r. split.
  - subst r. now rewrite return_item_lib, Hl.
  - pose proof (return_item_member lib m item d) as H. cbv zeta in H. fold r in H.
    destruct (compute_fee (policy lib) item d) as [fee|e]; [|tauto].
    destruct (0 <? fee); destruct H as [-> H]; exact H.
Qed.

Lemma unknown_member_is_harmless_witness :
  let bob := new_MemberAccount "Bob" in
  let lib := library_run (Demo.library Demo.console)
               [Checkout Demo.alice Demo.moby; ReturnItem bob Demo.moby 3;
                PayBalance bob 1; SetPolicy ChildrenPolicy;
                ReturnItem Demo.alice Demo.moby 5] in
  list_loans lib bob = [] /\
  forall item d,
    let r := return_item lib bob item d in
    lib_after r = lib /\
    match compute_fee (policy lib) item d with
    | Ok fee =>
        (printed r, raised r) =
          notify (notifier lib) (member_after r)
            (if 0 <? fee
             then LateFee (title item) fee (balance (member_after r))
             else ReturnedOnTime (title item))
    | Raise e => printed r = [] /\ raised r = Some e
    end.
Proof.
  apply (unknown_member_is_harmless (EmailNotifier Demo.console)
           (ConsolePayment Demo.console) StandardPolicy
           [Checkout Demo.alice Demo.moby; ReturnItem (new_MemberAccount "Bob") Demo.moby 3;
            PayBalance (new_MemberAccount "Bob") 1; SetPolicy ChildrenPolicy;
            ReturnItem Demo.alice Demo.moby 5] (new_MemberAccount "Bob")).
  repeat constructor; simpl; auto.
Defined.

(** C7: the demo scenario.  After checking out "Moby Dick" and "The Matrix"
    for Alice, whose balance is 0, [list_loans] is those two titles in
    order; returning Moby Dick 3 days late under [StandardPolicy] charges
    0.75 and the balance reads 0.75; returning The Matrix 3 days late then
    charges 2.25 and the balance reads 3.00. *)
Theorem demo_scenario (rich : Rich) :
  balance Demo.alice = 0 /\
  list_loans (Demo.library2 rich) Demo.alice = ["Moby Dick"; "The Matrix"] /\
  compute_fee (policy (Demo.library2 rich)) Demo.moby 3 = Ok 0.75 /\
  printed (Demo.returned_moby rich) = [Email "Alice" (LateFee "Moby Dick" 0.75 0.75)] /\
  balance (member_after (Demo.returned_moby rich)) = 0.75 /\
  compute_fee (policy (lib_after (Demo.returned_moby rich))) Demo.matrix 3 = Ok 2.25 /\
  printed (Demo.returned_matrix rich) = [Email "Alice" (LateFee "The Matrix" 2.25 3)] /\
  balance (member_after (Demo.returned_matrix rich)) = 3 /\
  list_loans (lib_after (Demo.returned_matrix rich)) Demo.alice = [].
Proof. repeat split; vm_compute; reflexivity. Qed.

End Library_loans.

(** ** Values of the doubles the fees are made of *)

Section Float_values.

Local Open Scope Z_scope.

(** The double an integer of at most 53 bits rounds to: the integer itself,
    normalised to 53 bits. *)
Lemma binary_round_small_shape s p :
  let d := Zpos (digits2_pos p) in
  d <= 53 ->
  exists m, binary_round prec emax s p 0 = S754_finite s m (d - 53) /\
            Zpos m = Zpos p * 2 ^ (53 - d) /\ Zpos (digits2_pos m) = 53.
Proof.
  intros d Hd.
  assert (0 < d) by (subst d; lia).
  assert (Hshl : exists mz, shl_align p 0 (fexp prec emax (d + 0)) = (mz, d - 53) /\
                   Zpos mz = Zpos p * 2 ^ (53 - d) /\ Zpos (digits2_pos mz) = 53).
  { rewrite fexp64 by lia. unfold shl_align.
    destruct (d + 0 - 53 - 0) as [|k|k] eqn:Ek; try lia.
    - exists p. replace (53 - d) with 0 by lia. repeat split;
        [f_equal; lia|rewrite Z.pow_0_r; lia|fold d; lia].
    - exists (Pos.iter xO p k). rewrite iter_xO_shift, digits2_pos_iter_xO. fold d.
      repeat split; [f_equal; f_equal; lia|lia]. }
  destruct Hshl as (mz & Hshl & Hval & Hmz).
  assert (E : forall l, shr_fexp prec emax (Zpos mz) (d - 53) l =
                        (shr_record_of_loc (Zpos mz) l, d - 53)).
  { intros l. unfold shr_fexp. simpl Zdigits2. rewrite Hmz, fexp64 by lia.
    now replace (53 + (d - 53) - 53 - (d - 53)) with 0 by lia. }
  exists mz. split; [|now split].
  unfold binary_round. fold d. rewrite Hshl.
  unfold binary_round_aux. rewrite E. simpl. rewrite E. simpl.
  destruct (Z.leb_spec (d - 53) (emax - prec)) as [_|Hgt]; [reflexivity|].
  unfold emax, prec in Hgt. lia.
Qed.

(** Below the overflow bound an integer rounds to a normal double: 53
    mantissa bits and an exponent between -52 and 971. *)
Lemma binary_round_shape s p :
  Zpos p < float_of_int_bound ->
  exists m e, binary_round prec emax s p 0 = S754_finite s m e /\
              2 ^ 52 <= Zpos m < 2 ^ 53 /\ -52 <= e <= 971.
Proof.
  intros Hp.
  pose proof (digits2_pos_bounds p) as [Dlo Dhi].
  destruct (Z.le_gt_cases (Zpos (digits2_pos p)) 53) as [Hd|Hd].
  - destruct (binary_round_small_shape s p Hd) as (m & E & _ & Hm).
    pose proof (digits2_pos_bounds m) as Bm. rewrite Hm in Bm.
    exists m, (Zpos (digits2_pos p) - 53). split; [exact E|]. split; [exact Bm|lia].
  - destruct (proj1 (binary_round_overflow s p) Hp) as (m & e & E).
    destruct (binary_round_large s p ltac:(lia)) as (m2 & Hm2 & _ & _ & E').
    set (n := Zpos (digits2_pos p) - 53) in *.
    assert (Hm1 : 2 ^ 52 <= Z.shiftr (Zpos p) n < 2 ^ 53).
    { rewrite Z.shiftr_div_pow2 by lia.
      assert (0 < 2 ^ n) by (apply Z.pow_pos_nonneg; lia).
      replace (Zpos (digits2_pos p) - 1) with (52 + n) in Dlo by lia.
      replace (Zpos (digits2_pos p)) with (53 + n) in Dhi by lia.
      rewrite Z.pow_add_r in Dlo, Dhi by lia. split.
      - apply Z.div_le_lower_bound; lia.
      - apply Z.div_lt_upper_bound; lia. }
    rewrite E' in E. rewrite E'. clear E'.
    destruct (Z.ltb_spec m2 (2 ^ 53)).
    + destruct (Z.leb_spec n 971); [|discriminate].
      exists (Z.to_pos m2), n. split; [reflexivity|].
      rewrite Z2Pos.id by lia. lia.
    + destruct (Z.leb_spec (n + 1) 971); [|discriminate].
      exists (Z.to_pos (2 ^ 52)), (n + 1). split; [reflexivity|].
      rewrite Z2Pos.id by lia. lia.
Qed.

Lemma normal_is_valid s m e :
  2 ^ 52 <= Zpos m < 2 ^ 53 -> -1074 <= e <= 971 ->
  valid_binary (S754_finite s m e) = true.
Proof.
  intros Hm He. simpl. unfold bounded, canonical_mantissa.
  rewrite (digits_unique m 53) by (simpl; lia).
  unfold fexp, SpecFloat.emin, prec, emax.
  apply andb_true_intro. split; [apply Z.eqb_eq|apply Z.leb_le]; lia.
Qed.

(** The specification of the double [float(n)] yields. *)
Lemma Prim2SF_nearest_double n :
  0 < n < float_of_int_bound ->
  exists m e, Prim2SF (nearest_double n) = S754_finite false m e /\
              2 ^ 52 <= Zpos m < 2 ^ 53 /\ -52 <= e <= 971.
Proof.
  intros [Hpos Hlt]. destruct n as [|p|p]; try lia.
  destruct (binary_round_shape false p Hlt) as (m & e & E & Hm & He).
  exists m, e. split; [|now split].
  unfold nearest_double. simpl binary_normalize. rewrite E.
  apply Prim2SF_SF2Prim. apply normal_is_valid; lia.
Qed.

(** Rounding a positive mantissa of at least 54 bits never gives zero. *)
Lemma binary_round_aux_pos q e :
  54 <= Zpos (digits2_pos q) -> -1021 <= Zpos (digits2_pos q) + e ->
  sf_pos (binary_round_aux prec emax false (Zpos q) e loc_Exact) = true.
Proof.
  set (d := Zpos (digits2_pos q)). intros Hd He.
  pose proof (digits2_pos_bounds q) as [Dlo Dhi]. fold d in Dlo, Dhi.
  destruct (d - 53) as [|k|k] eqn:Ek; try lia.
  assert (Hm1 : 2 ^ 52 <= Z.shiftr (Zpos q) (Zpos k) < 2 ^ 53).
  { rewrite Z.shiftr_div_pow2 by lia.
    assert (0 < 2 ^ Zpos k) by (apply Z.pow_pos_nonneg; lia).
    replace (d - 1) with (52 + Zpos k) in Dlo by lia.
    replace d with (53 + Zpos k) in Dhi by lia.
    rewrite Z.pow_add_r in Dlo, Dhi by lia. split.
    - apply Z.div_le_lower_bound; lia.
    - apply Z.div_lt_upper_bound; lia. }
  assert (E1 : exists mrs', shr_fexp prec emax (Zpos q) e loc_Exact = (mrs', e + Zpos k) /\
             shr_m mrs' = Z.shiftr (Zpos q) (Zpos k)).
  { unfold shr_fexp. simpl Zdigits2. fold d. rewrite fexp64 by lia.
    replace (d + e - 53 - e) with (Zpos k) by lia.
    destruct (shr_pos {| shr_m := Zpos q; shr_r := false; shr_s := false |} e k)
      as (mrs' & E & Em & _); [simpl; lia|]. now exists mrs'. }
  destruct E1 as (mrs' & E1 & Em).
  destruct (round_nearest_even_cases (shr_m mrs') mrs') as (Hr1 & _).
  set (m2 := round_nearest_even (shr_m mrs') (loc_of_shr_record mrs')) in *.
  rewrite Em in Hr1.
  unfold binary_round_aux. rewrite E1. fold m2.
  destruct m2 as [|q2|q2] eqn:Eq2; try lia.
  unfold shr_fexp. simpl Zdigits2. simpl shr_record_of_loc.
  destruct (Z.ltb_spec (Zpos q2) (2 ^ 53)) as [Hlt|Hge].
  - rewrite (digits_unique q2 53) by (simpl; lia).
    rewrite fexp64 by lia.
    replace (53 + (e + Zpos k) - 53 - (e + Zpos k)) with 0 by lia. simpl.
    now destruct (_ <=? _).
  - assert (Hq : Zpos q2 = 2 ^ 53) by lia.
    rewrite (digits_unique q2 54) by (simpl; lia).
    rewrite fexp64 by lia.
    replace (54 + (e + Zpos k) - 53 - (e + Zpos k)) with 1 by lia.
    injection Hq as ->. simpl. now destruct (_ <=? _).
Qed.

(** A normal double of at least [2^-52] times a normal double of at least
    [2^-54] is positive: the product does not underflow. *)
Lemma SFmul_normal_pos mx ex my ey :
  2 ^ 52 <= Zpos mx -> 2 ^ 52 <= Zpos my -> -1126 <= ex + ey ->
  sf_pos (SFmul prec emax (S754_finite false mx ex) (S754_finite false my ey)) = true.
Proof.
  intros Hx Hy He. simpl.
  assert (Hd : 104 < Zpos (digits2_pos (mx * my))).
  { apply (Z.pow_lt_mono_r_iff 2); try lia.
    apply Z.le_lt_trans with (2 := proj2 (digits2_pos_bounds (mx * my))).
    rewrite Pos2Z.inj_mul. change (2 ^ 104) with (2 ^ 52 * 2 ^ 52).
    apply Z.mul_le_mono_nonneg; lia. }
  apply binary_round_aux_pos; lia.
Qed.

End Float_values.

(** ** What the policies charge *)

Section Fees.

(** A late fee for at least one day is positive. *)
Lemma fee_positive item n :
  (0 < n < float_of_int_bound)%Z ->
  (0 <? nearest_double n * late_fee_per_day item) = true.
Proof.
  intros Hn. rewrite ltb_zero, FloatAxioms.mul_spec.
  destruct (Prim2SF_nearest_double n Hn) as (m & e & -> & Hm & He).
  destruct (late_fee_per_day_cases item) as [-> | ->].
  - change (Prim2SF 0.25) with (S754_finite false 4503599627370496 (-54)).
    apply SFmul_normal_pos; lia.
  - change (Prim2SF 0.75) with (S754_finite false 6755399441055744 (-53)).
    apply SFmul_normal_pos; lia.
Qed.

Lemma ltb_leb_zero x : (0 <? x) = true -> (0 <=? x) = true.
Proof. rewrite ltb_zero, leb_zero. apply sf_pos_nonneg. Qed.

Lemma int_mul_float_pos n x :
  (0 < n)%Z ->
  int_mul_float n x =
  if (n <? float_of_int_bound)%Z then Ok (nearest_double n * x) else Raise OverflowError.
Proof. intros H. rewrite int_mul_float_spec. now rewrite Z.abs_eq by lia. Qed.

Lemma standard_fee_late item d :
  (0 < d)%Z ->
  compute_fee StandardPolicy item d =
  if (d <? float_of_int_bound)%Z then Ok (nearest_double d * late_fee_per_day item)
  else Raise OverflowError.
Proof.
  intros H. simpl. destruct (Z.leb_spec d 0); [lia|]. now apply int_mul_float_pos.
Qed.

Lemma standard_fee_on_time item d :
  (d <= 0)%Z -> compute_fee StandardPolicy item d = Ok 0.
Proof. intros H. simpl. now destruct (Z.leb_spec d 0); [|lia]. Qed.

Lemma children_fee_late item d :
  (2 < d)%Z ->
  compute_fee ChildrenPolicy item d =
  if (d - 2 <? float_of_int_bound)%Z
  then Ok (nearest_double (d - 2) * late_fee_per_day item)
  else Raise OverflowError.
Proof.
  intros H. simpl. replace (Z.max 0 (d - 2)) with (d - 2)%Z by lia.
  apply int_mul_float_pos. lia.
Qed.

Lemma children_fee_on_time item d :
  (d <= 2)%Z -> compute_fee ChildrenPolicy item d = Ok 0.
Proof.
  intros H. simpl. replace (Z.max 0 (d - 2)) with 0%Z by lia.
  apply int_mul_float_zero.
Qed.

(** X1: under ChildrenPolicy the first two late days are free; from the third on the
    fee is the rate times the days beyond two, and the conversion of those
    days to a double raises OverflowError from 2^1024 - 2^970 on. *)
Theorem children_fee (item : LoanItem) (days_late : Z) :
  compute_fee ChildrenPolicy item days_late =
  if (days_late <=? 2)%Z then Ok 0
  else if (days_late - 2 <? float_of_int_bound)%Z
       then Ok (nearest_double (days_late - 2) * late_fee_per_day item)
       else Raise OverflowError.
Proof.
  destruct (Z.leb_spec days_late 2) as [H|H].
  - now apply children_fee_on_time.
  - now apply children_fee_late.
Qed.

(** X2: a fee either policy returns is never negative (nor NaN), and it is
    positive exactly for the days the policy counts as late: more than 0
    under StandardPolicy, more than 2 under ChildrenPolicy.  A policy raises
    only from the overflow bound on. *)
Theorem fee_sign (item : LoanItem) (days_late : Z) :
  match compute_fee StandardPolicy item days_late with
  | Ok fee => (0 <=? fee) = true /\ (0 <? fee) = (0 <? days_late)%Z
  | Raise _ => (float_of_int_bound <= days_late)%Z
  end /\
  match compute_fee ChildrenPolicy item days_late with
  | Ok fee => (0 <=? fee) = true /\ (0 <? fee) = (2 <? days_late)%Z
  | Raise _ => (float_of_int_bound + 2 <= days_late)%Z
  end.
Proof.
  split.
  - destruct (Z.leb_spec days_late 0) as [H|H].
    + rewrite standard_fee_on_time by lia.
      split; [reflexivity|]. now destruct (Z.ltb_spec 0 days_late); [lia|].
    + rewrite standard_fee_late by lia.
      destruct (Z.ltb_spec days_late float_of_int_bound) as [Hb|Hb]; [|exact Hb].
      rewrite (fee_positive item days_late) by lia.
      split; [apply ltb_leb_zero, fee_positive; lia|].
      now destruct (Z.ltb_spec 0 days_late); [|lia].
  - destruct (Z.leb_spec days_late 2) as [H|H].
    + rewrite children_fee_on_time by lia.
      split; [reflexivity|]. now destruct (Z.ltb_spec 2 days_late); [lia|].
    + rewrite children_fee_late by lia.
      destruct (Z.ltb_spec (days_late - 2) float_of_int_bound) as [Hb|Hb]; [|lia].
      rewrite (fee_positive item (days_late - 2)) by lia.
      split; [apply ltb_leb_zero, fee_positive; lia|].
      now destruct (Z.ltb_spec 2 days_late); [|lia].
Qed.

(** X3: what [return_item] does to the member under StandardPolicy: an on-time
    return ([days_late <= 0]) leaves the account as it is and calls the
    notifier with "no fee"; a late one charges [days_late * rate], a
    positive fee, and calls the notifier with the fee and the balance after
    it; what the notifier prints or raises is what the call prints or
    raises.  A return too late to convert raises [OverflowError] with the
    account untouched and nothing printed. *)
Theorem standard_return (lib : Library) (m : MemberAccount) (item : LoanItem) (d : Z) :
  policy lib = StandardPolicy ->
  let r := return_item lib m item d in
  if (d <=? 0)%Z then
    member_after r = m /\
    (printed r, raised r) = notify (notifier lib) m (ReturnedOnTime (title item))
  else if (d <? float_of_int_bound)%Z then
    let fee := nearest_double d * late_fee_per_day item in
    let m' := {| name := name m; __balance := __balance m + fee |} in
    (0 <? fee) = true /\ member_after r = m' /\
    (printed r, raised r) =
      notify (notifier lib) m' (LateFee (title item) fee (balance m'))
  else
    member_after r = m /\ raised r = Some OverflowError /\ printed r = [].
Proof.
  intros Hp r. pose proof (return_item_member lib m item d) as H.
  cbv zeta in H. fold r in H. rewrite Hp in H.
  destruct (Z.leb_spec d 0) as [Hd|Hd].
  - rewrite standard_fee_on_time in H by lia. exact H.
  - rewrite standard_fee_late in H by lia.
    destruct (Z.ltb_spec d float_of_int_bound) as [Hb|Hb]; [|tauto].
    cbv zeta. rewrite (fee_positive item d) in H by lia.
    unfold add_charge in H. rewrite (fee_positive item d) in H by lia.
    split; [apply fee_positive; lia|exact H].
Qed.

Lemma standard_return_witness :
  let lib := Demo.library2 Demo.console in
  let r := return_item lib Demo.alice Demo.moby 3 in
  if (3 <=? 0)%Z then
    member_after r = Demo.alice /\
    (printed r, raised r) = notify (notifier lib) Demo.alice (ReturnedOnTime (title Demo.moby))
  else if (3 <? float_of_int_bound)%Z then
    let fee := nearest_double 3 * late_fee_per_day Demo.moby in
    let m' := {| name := name Demo.alice; __balance := __balance Demo.alice + fee |} in
    (0 <? fee) = true /\ member_after r = m' /\
    (printed r, raised r) =
      notify (notifier lib) m' (LateFee (title Demo.moby) fee (balance m'))
  else
    member_after r = Demo.alice /\ raised r = Some OverflowError /\ printed r = [].
Proof.
  exact (standard_return (Demo.library2 Demo.console) Demo.alice Demo.moby 3 eq_refl).
Defined.

(** X16: what [return_item] does to the member under ChildrenPolicy: a
    return up to two days late leaves the account as it is and calls the
    notifier with "no fee"; a later one charges the rate for the days beyond
    two, a positive fee, and calls the notifier with it and the balance
    after it; what the notifier prints or raises is what the call prints or
    raises.  A return too late to convert raises [OverflowError] with the
    account untouched and nothing printed. *)
Theorem children_return (lib : Library) (m : MemberAccount) (item : LoanItem) (d : Z) :
  policy lib = ChildrenPolicy ->
  let r := return_item lib m item d in
  if (d <=? 2)%Z then
    member_after r = m /\
    (printed r, raised r) = notify (notifier lib) m (ReturnedOnTime (title item))
  else if (d - 2 <? float_of_int_bound)%Z then
    let fee := nearest_double (d - 2) * late_fee_per_day item in
    let m' := {| name := name m; __balance := __balance m + fee |} in
    (0 <? fee) = true /\ member_after r = m' /\
    (printed r, raised r) =
      notify (notifier lib) m' (LateFee (title item) fee (balance m'))
  else
    member_after r = m /\ raised r = Some OverflowError /\ printed r = [].
Proof.
  intros Hp r. pose proof (return_item_member lib m item d) as H.
  cbv zeta in H. fold r in H. rewrite Hp in H.
  destruct (Z.leb_spec d 2) as [Hd|Hd].
  - rewrite children_fee_on_time in H by lia. exact H.
  - rewrite children_fee_late in H by lia.
    destruct (Z.ltb_spec (d - 2) float_of_int_bound) as [Hb|Hb]; [|tauto].
    cbv zeta. rewrite (fee_positive item (d - 2)) in H by lia.
    unfold add_charge in H. rewrite (fee_positive item (d - 2)) in H by lia.
    split; [apply fee_positive; lia|exact H].
Qed.

Lemma children_return_witness :
  let lib := with_policy (Demo.library2 Demo.console) ChildrenPolicy in
  let r := return_item lib Demo.alice Demo.matrix 2 in
  if (2 <=? 2)%Z then
    member_after r = Demo.alice /\
    (printed r, raised r) = notify (notifier lib) Demo.alice (ReturnedOnTime (title Demo.matrix))
  else if (2 - 2 <? float_of_int_bound)%Z then
    let fee := nearest_double (2 - 2) * late_fee_per_day Demo.matrix in
    let m' := {| name := name Demo.alice; __balance := __balance Demo.alice + fee |} in
    (0 <? fee) = true /\ member_after r = m' /\
    (printed r, raised r) =
      notify (notifier lib) m' (LateFee (title Demo.matrix) fee (balance m'))
  else
    member_after r = Demo.alice /\ raised r = Some OverflowError /\ printed r = [].
Proof.
  exact (children_return (with_policy (Demo.library2 Demo.console) ChildrenPolicy) Demo.alice
           Demo.matrix 2 eq_refl).
Defined.

End Fees.

(** ** Loan lists *)

Section Loan_lists.

Lemma list_remove_app_fresh item l :
  Forall (fun y => oid y <> oid item) l -> list_remove item (l ++ [item]) = l.
Proof.
  induction 1 as [|y l Hy _ IH]; simpl.
  - unfold item_eq. now rewrite Nat.eqb_refl.
  - unfold item_eq. apply Nat.eqb_neq in Hy. now rewrite Hy, IH.
Qed.

Lemma list_remove_app_held item l1 x l2 l' :
  oid x = oid item -> Forall (fun y => oid y <> oid item) l1 ->
  list_remove item ((l1 ++ x :: l2) ++ l') = l1 ++ l2 ++ l'.
Proof.
  intros Hx. induction 1 as [|y l Hy _ IH]; simpl.
  - unfold item_eq. rewrite Hx, Nat.eqb_refl. reflexivity.
  - unfold item_eq. apply Nat.eqb_neq in Hy. now rewrite Hy, IH.
Qed.

Lemma length_list_remove item l :
  (length (list_remove item l) + (if item_in item l then 1 else 0))%nat = length l.
Proof.
  induction l as [|y l IH]; simpl; [reflexivity|].
  destruct (item_eq y item); simpl; lia.
Qed.

Lemma loans_of_return lib m item d m' :
  loans_of (lib_after (return_item lib m item d)) m' =
  if decide (name m' = name m)
  then (if item_in item (loans_of lib m) then list_remove item (loans_of lib m)
        else loans_of lib m)
  else loans_of lib m'.
Proof.
  unfold loans_of at 1. rewrite return_item_loans.
  destruct (decide (name m' = name m)) as [E|E].
  - destruct (item_in item (loans_of lib m)).
    + now rewrite E, lookup_insert_eq.
    + unfold loans_of. now rewrite E.
  - destruct (item_in item (loans_of lib m)); [|reflexivity].
    now rewrite lookup_insert_ne.
Qed.

Lemma loans_of_checkout_other lib m item m' :
  name m' <> name m -> loans_of (fst (checkout lib m item)) m' = loans_of lib m'.
Proof.
  intros E. unfold loans_of at 1. simpl. now rewrite lookup_insert_ne.
Qed.

(** X4: checking out an item the member does not hold and then returning it,
    through any account of the same name and however late, leaves every
    member's loan list as it was before the checkout. *)
Theorem checkout_then_return (lib : Library) (m m' : MemberAccount)
    (item : LoanItem) (d : Z) :
  Forall (fun y => oid y <> oid item) (loans_of lib m) ->
  name m' = name m ->
  forall who,
    loans_of (lib_after (return_item (fst (checkout lib m item)) m' item d)) who =
    loans_of lib who.
Proof.
  intros Hfresh E who. rewrite loans_of_return.
  destruct (decide (name who = name m')) as [Ew|Ew].
  - rewrite loans_of_checkout by auto.
    rewrite item_in_app_self, list_remove_app_fresh by auto.
    apply loans_of_same_name. congruence.
  - apply loans_of_checkout_other. congruence.
Qed.

Lemma checkout_then_return_witness :
  let copy := {| oid := 7; class_of := Book; title := "Moby Dick"; max_days := 14 |} in
  let lib := lib_after (return_item (fst (checkout (Demo.library2 Demo.console) Demo.alice copy))
                          Demo.alice copy 0) in
  loans_of lib Demo.alice = loans_of (Demo.library2 Demo.console) Demo.alice /\
  loans_of lib (new_MemberAccount "Bob") = loans_of (Demo.library2 Demo.console) (new_MemberAccount "Bob").
Proof.
  assert (Hfresh : Forall (fun y => oid y <> 7%nat) (loans_of (Demo.library2 Demo.console) Demo.alice)).
  { change (Forall (fun y => oid y <> 7%nat) [Demo.moby; Demo.matrix]).
    repeat constructor; simpl; lia. }
  split;
    apply (checkout_then_return (Demo.library2 Demo.console) Demo.alice Demo.alice
             {| oid := 7; class_of := Book; title := "Moby Dick"; max_days := 14 |} 0
             Hfresh eq_refl).
Defined.

(** X5: duplicates are permitted, and a return takes out the first
    occurrence.  Checking out an item the member already holds and returning
    it once leaves the item on loan: the earlier entry goes and the new one
    stays at the end of the list. *)
Theorem checkout_twice_return_once (lib : Library) (m : MemberAccount)
    (item x : LoanItem) (l1 l2 : list LoanItem) (d : Z) :
  loans_of lib m = l1 ++ x :: l2 -> oid x = oid item ->
  Forall (fun y => oid y <> oid item) l1 ->
  loans_of (lib_after (return_item (fst (checkout lib m item)) m item d)) m =
  l1 ++ l2 ++ [item].
Proof.
  intros El Hx Hl1. rewrite loans_of_return, decide_True by reflexivity.
  rewrite loans_of_checkout by auto.
  rewrite item_in_app_self, El. now apply list_remove_app_held.
Qed.

Lemma checkout_twice_return_once_witness :
  loans_of (lib_after (return_item (fst (checkout (Demo.library2 Demo.console) Demo.alice Demo.moby))
                         Demo.alice Demo.moby 0)) Demo.alice =
  [] ++ [Demo.matrix] ++ [Demo.moby].
Proof.
  apply (checkout_twice_return_once (Demo.library2 Demo.console) Demo.alice Demo.moby Demo.moby
           [] [Demo.matrix] 0).
  - reflexivity.
  - reflexivity.
  - constructor.
Defined.

(** X6: a return shortens the member's [list_loans] by exactly one entry
    when the item is held, however many times it is held, and by none when
    it is not. *)
Theorem return_removes_one (lib : Library) (m : MemberAccount) (item : LoanItem) (d : Z) :
  (length (list_loans (lib_after (return_item lib m item d)) m)
    + (if item_in item (loans_of lib m) then 1 else 0))%nat
  = length (list_loans lib m).
Proof.
  unfold list_loans. rewrite !length_map, loans_of_return, decide_True by reflexivity.
  pose proof (length_list_remove item (loans_of lib m)) as H.
  now destruct (item_in item (loans_of lib m)).
Qed.

(** X7: a checkout or a return for one member changes no [list_loans] of a
    member with another name. *)
Theorem other_members_untouched (lib : Library) (m other : MemberAccount)
    (item : LoanItem) (d : Z) :
  name other <> name m ->
  list_loans (fst (checkout lib m item)) other = list_loans lib other /\
  list_loans (lib_after (return_item lib m item d)) other = list_loans lib other.
Proof.
  intros E. unfold list_loans. split.
  - now rewrite loans_of_checkout_other.
  - now rewrite loans_of_return, decide_False.
Qed.

Lemma other_members_untouched_witness :
  let bob := new_MemberAccount "Bob" in
  list_loans (fst (checkout (Demo.library2 Demo.console) bob Demo.moby)) Demo.alice =
    list_loans (Demo.library2 Demo.console) Demo.alice /\
  list_loans (lib_after (return_item (Demo.library2 Demo.console) bob Demo.moby 3)) Demo.alice =
    list_loans (Demo.library2 Demo.console) Demo.alice.
Proof.
  apply (other_members_untouched (Demo.library2 Demo.console) (new_MemberAccount "Bob") Demo.alice
           Demo.moby 3).
  simpl. discriminate.
Defined.

End Loan_lists.

(** ** Sessions of one member *)

Section Sessions.

Lemma session_cons lib m c calls :
  session lib m (c :: calls) =
  session (fst (member_call (lib, m) c)) (snd (member_call (lib, m) c)) calls.
Proof. unfold session. cbn [fold_left]. now destruct (member_call (lib, m) c). Qed.

Lemma session_app lib m calls1 calls2 :
  session lib m (calls1 ++ calls2) =
  session (fst (session lib m calls1)) (snd (session lib m calls1)) calls2.
Proof. unfold session. rewrite fold_left_app. now destruct (fold_left _ calls1 _). Qed.

Lemma return_item_name lib m item d :
  name (member_after (return_item lib m item d)) = name m.
Proof.
  destruct (return_item_member_after lib m item d) as [->|(fee & _ & ->)];
    [reflexivity|apply add_charge_name].
Qed.

Lemma return_item_nonneg lib m item d :
  (0 <=? __balance m) = true ->
  (0 <=? __balance (member_after (return_item lib m item d))) = true.
Proof.
  intros Hm.
  destruct (return_item_member_after lib m item d) as [->|(fee & _ & ->)];
    [exact Hm|now apply add_charge_nonneg].
Qed.

Lemma return_item_ports lib m item d :
  payments (lib_after (return_item lib m item d)) = payments lib /\
  notifier (lib_after (return_item lib m item d)) = notifier lib /\
  policy (lib_after (return_item lib m item d)) = policy lib.
Proof.
  rewrite return_item_lib. now destruct (item_in item (loans_of lib m)).
Qed.

(** [pay_balance] through [ConsolePayment]: the payment is made, then its
    line is printed, then the balance is notified; an exception of the
    print leaves the notification unsent. *)
Lemma console_pay_balance rich lib m a :
  payments lib = ConsolePayment rich ->
  pay_balance lib m a =
  (fst (pay m a),
   match rprint rich (Payment (name m) a (snd (pay m a))) with
   | (out, Some e) => (out, Some e)
   | (out, None) =>
       let '(out', e) :=
         notify (notifier lib) (fst (pay m a)) (BalanceNow (balance (fst (pay m a)))) in
       (out ++ out', e)
   end).
Proof.
  intros Hp. unfold pay_balance. rewrite Hp. simpl. destruct (pay m a) as [m' ok].
  simpl. destruct (rprint rich (Payment (name m) a ok)) as [out [e|]]; [reflexivity|].
  now destruct (notify _ _ _).
Qed.

(** What a call keeps: the payment gateway, the member's name and a stored
    balance that is not negative. *)
Lemma member_call_keeps rich lib m c :
  payments lib = ConsolePayment rich ->
  let s := member_call (lib, m) c in
  payments (fst s) = ConsolePayment rich /\ name (snd s) = name m /\
  (pays_balance_infinity c = false -> (0 <=? __balance m) = true ->
   (0 <=? __balance (snd s)) = true).
Proof.
  intros Hp. destruct c as [i|i d|a|p]; simpl; auto.
  - rewrite (proj1 (return_item_ports lib m i d)), return_item_name.
    auto using return_item_nonneg.
  - rewrite (console_pay_balance rich) by assumption. simpl.
    rewrite pay_name. auto using pay_nonneg.
Qed.

Lemma session_keeps rich calls : forall lib m,
  payments lib = ConsolePayment rich ->
  let s := session lib m calls in
  payments (fst s) = ConsolePayment rich /\ name (snd s) = name m /\
  (Forall (fun c => pays_balance_infinity c = false) calls ->
   (0 <=? __balance m) = true -> (0 <=? __balance (snd s)) = true).
Proof.
  induction calls as [|c calls IH]; intros lib m Hp; [simpl; auto|].
  destruct (member_call_keeps rich lib m c Hp) as (Hp' & Hn & Hb).
  rewrite session_cons.
  destruct (IH _ (snd (member_call (lib, m) c)) Hp') as (Hp'' & Hn' & Hb').
  split; [exact Hp''|]. split; [now rewrite Hn'|].
  intros Hcs Hm. inversion_clear Hcs as [|? ? Hc Hcs']. auto.
Qed.

(** X8: the balance stays [>= 0] across the library, whatever the fee
    policy.  For a new account driven through a new library that pays through
    [ConsolePayment], after every call of any sequence of checkouts, returns,
    payments and policy swaps (the policies arbitrary: negative or NaN fees,
    exceptions; the notifier and what rich makes of tags arbitrary too) in
    which no payment is [+infinity], [balance()] is [>= 0] and the account
    still has its name. *)
Theorem session_balance_never_negative (rich : Rich) (nt : Notifier)
    (pol : LateFeePolicy) (n : string) (calls : list MemberCall) (k : nat) :
  Forall (fun c => pays_balance_infinity c = false) calls ->
  let s := session (new_Library nt (ConsolePayment rich) pol) (new_MemberAccount n)
             (take k calls) in
  (0 <=? balance (snd s)) = true /\ name (snd s) = n.
Proof.
  intros Hcs s.
  destruct (session_keeps rich (take k calls) (new_Library nt (ConsolePayment rich) pol)
              (new_MemberAccount n) eq_refl) as (_ & Hn & Hb).
  fold s in Hn, Hb. split; [|exact Hn].
  unfold balance. apply round2_nonneg, Hb; [|reflexivity]. now apply Forall_take.
Qed.

Lemma session_balance_never_negative_witness :
  let s := session (new_Library (EmailNotifier Demo.console)
                      (ConsolePayment Demo.console) StandardPolicy)
             (new_MemberAccount "Carol")
             (take 6 [DoCheckout Demo.moby; DoReturn Demo.moby 10; DoPay 100;
                      DoSetPolicy ChildrenPolicy; DoReturn Demo.matrix (-365);
                      DoPay 1]) in
  (0 <=? balance (snd s)) = true /\ name (snd s) = "Carol".
Proof.
  apply (session_balance_never_negative Demo.console (EmailNotifier Demo.console)
           StandardPolicy "Carol").
  repeat constructor.
Defined.

Lemma session_checkouts items : forall lib m,
  session lib m (map DoCheckout items) =
  (fst (session lib m (map DoCheckout items)), m) /\
  loans_of (fst (session lib m (map DoCheckout items))) m = loans_of lib m ++ items.
Proof.
  induction items as [|i items IH]; intros lib m.
  - simpl. now rewrite app_nil_r.
  - simpl map. rewrite session_cons. cbn [member_call fst snd].
    destruct (IH (fst (checkout lib m i)) m) as [E1 E2]. split; [exact E1|].
    rewrite E2, loans_of_checkout by reflexivity. now rewrite <- app_assoc.
Qed.

(** X9: [list_loans] is in checkout order.  Checking out a sequence of items
    for a member appends their titles, in that order, to what [list_loans]
    returned before, and leaves the account untouched. *)
Theorem loans_in_checkout_order (lib : Library) (m : MemberAccount)
    (items : list LoanItem) :
  let s := session lib m (map DoCheckout items) in
  snd s = m /\ list_loans (fst s) m = list_loans lib m ++ map title items.
Proof.
  destruct (session_checkouts items lib m) as [E1 E2]. cbv zeta.
  split; [now rewrite E1|]. unfold list_loans. now rewrite E2, map_app.
Qed.

Lemma list_remove_perm x l :
  x ∈ l -> NoDup (map oid l) -> l ≡ₚ x :: list_remove x l.
Proof.
  induction l as [|y l IH]; intros Hx Hnd; [now apply elem_of_nil in Hx|].
  simpl in Hnd. apply NoDup_cons in Hnd as [Hy Hnd]. simpl.
  destruct (item_eq y x) eqn:E.
  - apply item_eq_oid in E. apply elem_of_cons in Hx as [->|Hx]; [reflexivity|].
    exfalso. apply Hy. rewrite E. apply list_elem_of_In, in_map, list_elem_of_In, Hx.
  - apply elem_of_cons in Hx as [->|Hx].
    + unfold item_eq in E. now rewrite Nat.eqb_refl in E.
    + rewrite (IH Hx Hnd) at 1. apply perm_swap.
Qed.

Lemma item_in_elem x l : x ∈ l -> item_in x l = true.
Proof.
  intros H. unfold item_in. apply existsb_exists. exists x.
  split; [now apply list_elem_of_In|]. unfold item_eq. apply Nat.eqb_refl.
Qed.

Lemma session_returns rets : forall lib m,
  NoDup (map oid (loans_of lib m)) ->
  map fst rets ≡ₚ loans_of lib m ->
  let s := session lib m (map (fun r => DoReturn (fst r) (snd r)) rets) in
  name (snd s) = name m /\ loans_of (fst s) (snd s) = [].
Proof.
  induction rets as [|[x d] rets IH]; intros lib m Hnd Hp.
  - simpl in *. split; [reflexivity|]. now apply Permutation_nil in Hp.
  - simpl map in *. rewrite session_cons. cbn [member_call fst snd].
    set (r := return_item lib m x d).
    assert (Hx : x ∈ loans_of lib m) by (rewrite <- Hp; left).
    assert (Hn : name (member_after r) = name m) by apply return_item_name.
    assert (El : loans_of (lib_after r) (member_after r) = list_remove x (loans_of lib m)).
    { subst r. rewrite loans_of_return, decide_True by exact Hn.
      now rewrite item_in_elem. }
    pose proof (list_remove_perm x _ Hx Hnd) as Hperm.
    destruct (IH (lib_after r) (member_after r)) as [Hn' Hl'].
    + rewrite El. rewrite Hperm in Hnd. simpl in Hnd. now apply NoDup_cons in Hnd.
    + rewrite El. rewrite Hperm in Hp. now apply Permutation_cons_inv in Hp.
    + cbv zeta. split; [congruence|exact Hl'].
Qed.

(** X10: a member with no loans who checks out items that are distinct
    objects and then returns each of them once, in any order and however
    late, under whatever policy, ends with an empty [list_loans]. *)
Theorem everything_returned (lib : Library) (m : MemberAccount)
    (items : list LoanItem) (rets : list (LoanItem * Z)) :
  loans_of lib m = [] ->
  NoDup (map oid items) ->
  map fst rets ≡ₚ items ->
  let s := session lib m
             (map DoCheckout items ++ map (fun r => DoReturn (fst r) (snd r)) rets) in
  list_loans (fst s) (snd s) = [].
Proof.
  intros Hl Hnd Hp. cbv zeta. rewrite session_app.
  destruct (session_checkouts items lib m) as [E1 E2]. rewrite E1. cbn [fst snd].
  set (lib1 := fst (session lib m (map DoCheckout items))) in *.
  rewrite Hl in E2. simpl in E2.
  destruct (session_returns rets lib1 m) as [_ H]; rewrite ?E2; auto.
  unfold list_loans. now rewrite H.
Qed.

Lemma everything_returned_witness :
  let s := session (Demo.library Demo.console) Demo.alice
             (map DoCheckout [Demo.moby; Demo.matrix] ++
              map (fun r => DoReturn (fst r) (snd r)) [(Demo.matrix, 3%Z); (Demo.moby, 0%Z)]) in
  list_loans (fst s) (snd s) = [].
Proof.
  apply (everything_returned (Demo.library Demo.console) Demo.alice
           [Demo.moby; Demo.matrix]
           [(Demo.matrix, 3%Z); (Demo.moby, 0%Z)]).
  - reflexivity.
  - simpl. apply NoDup_cons. split; [|apply NoDup_singleton].
    intros H. apply list_elem_of_singleton in H. discriminate.
  - apply perm_swap.
Defined.

(** The whole of the module's demo run, as one session: the two late
    returns, a payment of 1.00, a refused payment of 10.00, the swap to
    ChildrenPolicy, a return two days late (free), one four days late
    (2 x 0.25), and a refused payment of 50.00. *)
Example demo_session (rich : Rich) :
  let s := session (Demo.library rich) Demo.alice
             [DoCheckout Demo.moby; DoCheckout Demo.matrix;
              DoReturn Demo.moby 3; DoReturn Demo.matrix 3;
              DoPay 1; DoPay 10; DoSetPolicy ChildrenPolicy;
              DoReturn {| oid := 3; class_of := DVD;
                          title := "Spirited Away"; max_days := 7 |} 2;
              DoReturn {| oid := 4; class_of := Book;
                          title := "Charlotte's Web"; max_days := 14 |} 4;
              DoPay 50] in
  balance (snd s) = 2.5 /\ list_loans (fst s) (snd s) = [].
Proof. split; vm_compute; reflexivity. Qed.

End Sessions.

(** ** Settling a balance *)

Section Settling.

(** A positive amount other than [+inf] is a finite double. *)
Lemma positive_finite a :
  (0 <? a) = true -> (a =? infinity) = false ->
  exists m e, Prim2SF a = S754_finite false m e.
Proof.
  rewrite ltb_zero. intros Hpos Hinf. apply not_infinity in Hinf.
  destruct (Prim2SF a) as [s|s| |s m e]; try discriminate.
  - destruct s; [discriminate|]. now elim Hinf.
  - destruct s; [discriminate|]. eauto.
Qed.

Lemma sub_self a :
  (0 <? a) = true -> (a =? infinity) = false -> a - a = 0.
Proof.
  intros Hpos Hinf. destruct (positive_finite a Hpos Hinf) as (m & e & E).
  apply Prim2SF_inj. rewrite FloatAxioms.sub_spec, E. unfold SF64sub. simpl.
  rewrite Z.min_id. unfold shl_align. rewrite !Z.sub_diag. reflexivity.
Qed.

Lemma leb_self a :
  (0 <? a) = true -> (a <=? a) = true.
Proof.
  rewrite ltb_zero, FloatAxioms.leb_spec. unfold SFleb.
  destruct (Prim2SF a) as [s|s| |s m e]; try discriminate; destruct s; try discriminate.
  - reflexivity.
  - intros _. simpl. rewrite Z.compare_refl.
    change (Pos.compare_cont Eq m m) with (m ?= m)%positive.
    now rewrite Pos.compare_refl.
Qed.

Lemma add_zero_l a : (0 <? a) = true -> 0 + a = a.
Proof.
  rewrite ltb_zero. intros Hpos. apply Prim2SF_inj.
  rewrite FloatAxioms.add_spec. change (Prim2SF 0) with (S754_zero false).
  destruct (Prim2SF a) as [s|s| |s m e]; try discriminate; reflexivity.
Qed.

(** X11: paying the whole stored balance, when it is positive and finite,
    succeeds and leaves a balance of exactly zero. *)
Theorem pay_in_full (m : MemberAccount) :
  (0 <? __balance m) = true -> (__balance m =? infinity) = false ->
  pay m (__balance m) = ({| name := name m; __balance := 0 |}, true) /\
  balance (fst (pay m (__balance m))) = 0.
Proof.
  intros Hpos Hinf. unfold pay.
  rewrite Hpos, (leb_self _ Hpos), (sub_self _ Hpos Hinf). now split.
Qed.

Lemma pay_in_full_witness :
  let m := add_charge (new_MemberAccount "Eve") 5 in
  pay m (__balance m) = ({| name := name m; __balance := 0 |}, true) /\
  balance (fst (pay m (__balance m))) = 0.
Proof.
  apply (pay_in_full (add_charge (new_MemberAccount "Eve") 5)); reflexivity.
Defined.

(** X12: a new account charged a positive finite amount and then paying that
    amount is a new account again: the payment is accepted and nothing is
    left over. *)
Theorem charge_then_pay (n : string) (a : float) :
  (0 <? a) = true -> (a =? infinity) = false ->
  account_run (new_MemberAccount n) [AddCharge a; Pay a] = new_MemberAccount n.
Proof.
  intros Hpos Hinf. simpl. unfold add_charge. rewrite Hpos. unfold pay. simpl.
  rewrite (add_zero_l a Hpos), Hpos, (leb_self _ Hpos), (sub_self _ Hpos Hinf).
  reflexivity.
Qed.

Lemma charge_then_pay_witness :
  account_run (new_MemberAccount "Eve") [AddCharge 5; Pay 5] = new_MemberAccount "Eve".
Proof.
  apply (charge_then_pay "Eve" 5); reflexivity.
Defined.

(** X13: [pay_balance] through [ConsolePayment] with an amount that is
    [<= 0] or above the stored balance leaves the account as it is.  When
    the line of the payment is printed (always so when the member's name
    holds no bracket) it reads FAILED and the notifier is still called with
    the unchanged balance; when rich refuses the line, the call ends with
    [MarkupError], nothing printed and no notification. *)
Theorem rejected_payment_still_notifies (rich : Rich) (lib : Library)
    (m : MemberAccount) (a : float) :
  payments lib = ConsolePayment rich ->
  (a <=? 0) = true \/ (__balance m <? a) = true ->
  let line := Payment (name m) a false in
  fst (pay_balance lib m a) = m /\
  (has_bracket (name m) = false \/ renders_markup rich line = true ->
     snd (pay_balance lib m a) =
     let '(out, e) := notify (notifier lib) m (BalanceNow (balance m)) in
     (line :: out, e)) /\
  (has_bracket (name m) = true /\ renders_markup rich line = false ->
     snd (pay_balance lib m a) = ([], Some MarkupError)).
Proof.
  intros Hp Hrej line. rewrite (console_pay_balance rich) by assumption.
  assert (E : pay m a = (m, false)).
  { assert (Hno : (0 <? a) = false \/ (a <=? __balance m) = false)
      by (destruct Hrej; auto using leb_zero_not_ltb, ltb_not_leb).
    unfold pay. destruct Hno as [-> | ->]; [reflexivity|].
    now rewrite andb_false_r. }
  rewrite E. simpl fst. simpl snd. fold line. unfold rprint. simpl texts.
  simpl existsb. rewrite orb_false_r.
  split; [reflexivity|]. split.
  - intros [-> | ->]; [|rewrite andb_false_r]; simpl; now destruct (notify _ _ _).
  - now intros [-> ->].
Qed.

Lemma rejected_payment_still_notifies_witness :
  let lib := Demo.library Demo.console in
  let m := add_charge (new_MemberAccount "Eve") 5 in
  let line := Payment (name m) 10 false in
  fst (pay_balance lib m 10) = m /\
  (has_bracket (name m) = false \/ renders_markup Demo.console line = true ->
     snd (pay_balance lib m 10) =
     let '(out, e) := notify (notifier lib) m (BalanceNow (balance m)) in
     (line :: out, e)) /\
  (has_bracket (name m) = true /\ renders_markup Demo.console line = false ->
     snd (pay_balance lib m 10) = ([], Some MarkupError)).
Proof.
  apply (rejected_payment_still_notifies Demo.console (Demo.library Demo.console)
           (add_charge (new_MemberAccount "Eve") 5) 10).
  - reflexivity.
  - right. reflexivity.
Defined.

(** X17: [return_item] through [EmailNotifier], when the policy returns a
    fee.  The removal and the charge are made before the line is printed
    and stand whatever the printing does: the first entry that is the item
    is gone from the member's list, and a positive fee is on the balance.
    When the member's name and the item's title hold no bracket, or rich
    renders the line, the line is printed and the call returns; when one of
    them holds a bracket and rich refuses the line, the call ends with
    [MarkupError] and nothing printed, the item already removed and the fee
    already charged. *)
Theorem return_item_markup_error (rich : Rich) (lib : Library) (m : MemberAccount)
    (item : LoanItem) (d : Z) (fee : float) :
  notifier lib = EmailNotifier rich ->
  compute_fee (policy lib) item d = Ok fee ->
  let r := return_item lib m item d in
  let m' := if 0 <? fee
            then {| name := name m; __balance := __balance m + fee |} else m in
  let line := Email (name m)
                (if 0 <? fee then LateFee (title item) fee (balance m')
                 else ReturnedOnTime (title item)) in
  member_after r = m' /\
  (Exists (fun x => oid x = oid item) (loans_of lib m) ->
     exists l1 x l2,
       loans_of lib m = l1 ++ x :: l2 /\ oid x = oid item /\
       Forall (fun y => oid y <> oid item) l1 /\
       loans_of (lib_after r) m = l1 ++ l2) /\
  ((has_bracket (name m) = false /\ has_bracket (title item) = false) \/
   renders_markup rich line = true ->
     printed r = [line] /\ raised r = None) /\
  ((has_bracket (name m) = true \/ has_bracket (title item) = true) /\
   renders_markup rich line = false ->
     printed r = [] /\ raised r = Some MarkupError).
Proof.
  intros Hn Hfee r m' line.
  assert (Hout : member_after r = m' /\ (printed r, raised r) = rprint rich line).
  { pose proof (return_item_member lib m item d) as H. cbv zeta in H. fold r in H.
    rewrite Hfee, Hn in H. subst line m'. unfold add_charge in H.
    destruct (0 <? fee); exact H. }
  destruct Hout as [Hm Hout]. split; [exact Hm|]. split.
  - intros H. apply item_in_exists in H. subst r. rewrite return_item_lib, H.
    destruct (list_remove_first _ _ H) as (l1 & x & l2 & E & Hx & Hl1 & ->).
    exists l1, x, l2. repeat split; auto. apply loans_of_with_loans.
  - assert (Ht : existsb has_bracket (texts line) =
                 has_bracket (name m) || has_bracket (title item)).
    { subst line. destruct (0 <? fee); simpl; now rewrite orb_false_r. }
    unfold rprint in Hout. rewrite Ht in Hout. split.
    + intros [[Hb1 Hb2]|Hr].
      * rewrite Hb1, Hb2 in Hout. simpl in Hout. now inversion Hout.
      * rewrite Hr, andb_false_r in Hout. now inversion Hout.
    + intros [Hb Hr]. rewrite Hr in Hout.
      assert (Hb' : has_bracket (name m) || has_bracket (title item) = true)
        by (destruct Hb as [-> | ->]; [reflexivity|apply orb_true_r]).
      rewrite Hb' in Hout. simpl in Hout. now inversion Hout.
Qed.

Lemma return_item_markup_error_witness :
  let lib := fst (checkout (Demo.library Demo.console) Demo.alice
                    {| oid := 9; class_of := Book; title := "[/b]"; max_days := 14 |}) in
  let item := {| oid := 9; class_of := Book; title := "[/b]"; max_days := 14 |} in
  let r := return_item lib Demo.alice item 3 in
  let m' := if 0 <? 0.75
            then {| name := name Demo.alice; __balance := __balance Demo.alice + 0.75 |}
            else Demo.alice in
  let line := Email (name Demo.alice)
                (if 0 <? 0.75 then LateFee (title item) 0.75 (balance m')
                 else ReturnedOnTime (title item)) in
  member_after r = m' /\
  (Exists (fun x => oid x = oid item) (loans_of lib Demo.alice) ->
     exists l1 x l2,
       loans_of lib Demo.alice = l1 ++ x :: l2 /\ oid x = oid item /\
       Forall (fun y => oid y <> oid item) l1 /\
       loans_of (lib_after r) Demo.alice = l1 ++ l2) /\
  ((has_bracket (name Demo.alice) = false /\ has_bracket (title item) = false) \/
   renders_markup Demo.console line = true ->
     printed r = [line] /\ raised r = None) /\
  ((has_bracket (name Demo.alice) = true \/ has_bracket (title item) = true) /\
   renders_markup Demo.console line = false ->
     printed r = [] /\ raised r = Some MarkupError).
Proof.
  exact (return_item_markup_error Demo.console
           (fst (checkout (Demo.library Demo.console) Demo.alice
                   {| oid := 9; class_of := Book; title := "[/b]"; max_days := 14 |}))
           Demo.alice
           {| oid := 9; class_of := Book; title := "[/b]"; max_days := 14 |}
           3 0.75 eq_refl eq_refl).
Defined.

End Settling.

(** ** BankAccount (4-pillars.py) *)

Section Bank_account.

Local Open Scope Z_scope.

Lemma bank_step_floor b0 acc c :
  Z.min 0 b0 <= Pillars.get_balance acc ->
  Z.min 0 b0 <= Pillars.get_balance (Pillars.step acc c).
Proof.
  unfold Pillars.get_balance. destruct c as [a|a]; simpl;
    unfold Pillars.deposit, Pillars.withdraw; intros H.
  - destruct (Z.ltb_spec 0 a); simpl; lia.
  - destruct (Z.ltb_spec 0 a); simpl; [|lia].
    destruct (Z.leb_spec a (Pillars.__balance acc)); simpl; lia.
Qed.

Lemma bank_run_floor b0 cs : forall acc,
  Z.min 0 b0 <= Pillars.get_balance acc ->
  Z.min 0 b0 <= Pillars.get_balance (Pillars.run acc cs).
Proof.
  induction cs as [|c cs IH]; intros acc H; [exact H|].
  simpl. apply IH. now apply bank_step_floor.
Qed.

(** X14: an account opened with balance [b] never reads below [min(0, b)],
    whatever deposits and withdrawals follow; opened with [b >= 0] it never
    goes negative. *)
Theorem bank_balance_floor (o : string) (b : Z) (cs : list Pillars.Call) :
  Z.min 0 b <= Pillars.get_balance (Pillars.run (Pillars.new_BankAccount o b) cs).
Proof. apply bank_run_floor. simpl. lia. Qed.

(** X15: depositing an amount and withdrawing it again restores the balance
    when the balance was not negative; on an account opened overdrawn the
    withdrawal is refused without a sign and the deposit stays.  An amount
    [<= 0] changes nothing. *)
Theorem bank_deposit_then_withdraw (acc : Pillars.BankAccount) (a : Z) :
  Pillars.get_balance (Pillars.withdraw (Pillars.deposit acc a) a) =
  if 0 <? a
  then if 0 <=? Pillars.get_balance acc
       then Pillars.get_balance acc
       else Pillars.get_balance acc + a
  else Pillars.get_balance acc.
Proof.
  unfold Pillars.get_balance, Pillars.deposit, Pillars.withdraw.
  destruct (Z.ltb_spec 0 a) as [Ha|Ha]; simpl.
  - destruct (Z.ltb_spec 0 a); [|lia]. simpl.
    destruct (Z.leb_spec a (Pillars.__balance acc + a)),
             (Z.leb_spec 0 (Pillars.__balance acc)); simpl; lia.
  - destruct (Z.ltb_spec 0 a); [lia|]. reflexivity.
Qed.

End Bank_account.
